(** * HEASARC cross-match glue: a shallow embedding of
      [light_curves/code_src/heasarc_functions.py]

    The module holds two functions, [make_hist_error_radii] and
    [HEASARC_get_lightcurves].  Both talk to a remote TAP service, print
    progress lines and (the second one) mutate Python objects: an astropy
    table built for the upload and a [MultiIndexDFObject] that collects the
    light-curve rows.  The embedding keeps those effects explicit:

    - Python objects that are mutated live in a store, addressed by
      location, so that aliasing questions can be asked;
    - every call that leaves the process (registry search, synchronous
      query, plot, print) is logged in a trace, in program order;
    - Python exceptions are an [outcome]; the state reached when the
      exception was raised is kept next to it. *)

From Stdlib Require Import ZArith Floats.
From stdpp Require Import base option list strings.

Local Open Scope string_scope.
Local Open Scope list_scope.
Local Open Scope nat_scope.

(* 0.1 is no binary64 number; the literal denotes the nearest one, as it
   does in Python. *)
Set Warnings "-inexact-float".

(* [String.length] shadows the list one once strings are loaded. *)
Local Abbreviation length := List.length.

(** ** Data *)

(** A cell of an astropy table.  [VCoord] is one entry of a [SkyCoord]
    mixin column, holding right ascension and declination in degrees. *)
Inductive value :=
  | VInt (z : Z)
  | VStr (s : string)
  | VFloat (f : float)
  | VCoord (ra_deg dec_deg : float).

Definition column := list value.

(** An astropy table, column-major and ordered: [(name, cells)] pairs. *)
Definition Table := list (string * column).

(** Python exceptions the two functions can meet.  [Dangling] is not a
    Python exception: it marks a location that names no object, which no
    Python program can hold. *)
Inductive exn :=
  | KeyError (key : string)
  | IndexError
  | ValueError
  | AttributeError (attr : string)
  | RemoteFailure (msg : string)
  | Dangling.

Inductive outcome (A : Type) :=
  | Ok (a : A)
  | Raise (e : exn).
Arguments Ok {A} a.
Arguments Raise {A} e.

#[global] Instance outcome_ret : MRet outcome := λ A a, Ok a.
#[global] Instance outcome_bind : MBind outcome := λ A B f o,
  match o with
  | Ok a => f a
  | Raise e => Raise e
  end.

(** One row of the pandas frame indexed by
    [["object_id", "label", "band", "time"]], with value columns
    [flux] and [err]. *)
Record LCRow := mkLCRow {
  lc_object_id : value;
  lc_label : value;
  lc_band : string;
  lc_time : value;
  lc_flux : float;
  lc_err : float
}.

(** ** Queries

    The source writes its two ADQL queries as f-strings.  They are kept
    here as syntax trees whose leaves are the very column references,
    table names and aliases of the text. *)

Inductive condition :=
  (** [lhs < rhs], the right-hand side being a number spliced in the text *)
  | CLt (lhs : string) (rhs : float)
  (** [CONTAINS(POINT(frame, ra, dec), CIRCLE(frame, ra, dec, radius)) = 1] *)
  | CContains (point : string * string * string)
              (circle : string * string * string * string).

Record Query := mkQuery {
  q_top : option nat;                 (* SELECT TOP n *)
  q_select : list string;             (* the select list *)
  q_from : list (string * string);    (* FROM table alias, ... *)
  q_where : list condition            (* WHERE c1 AND c2 AND ... *)
}.

(** ** The outside world *)

(** What [heasarc_tap.service.run_sync(query, uploads=...)] answers. *)
Record TapService := mkTapService {
  run_sync : Query → list (string * Table) → outcome Table
}.

(** What [pyvo.regsearch(servicetype=..., keywords=...)] answers. *)
Record Registry := mkRegistry {
  regsearch : string → list string → outcome (list TapService)
}.

(** What [plt.hist(data, bins=..., range=...)] answers: matplotlib draws
    and returns, or raises on data it cannot bin. *)
Record Pyplot := mkPyplot {
  hist : column → nat → Z * Z → outcome ()
}.

Inductive event :=
  | EvRegsearch (servicetype : string) (keywords : list string)
  | EvRunSync (q : Query) (uploads : list (string * Table))
  | EvPrintMission (cat : string)            (* print('working on mission', ..) *)
  | EvPrintLength (cat : string) (n : nat)   (* print(f'length of .. catalog:', ..) *)
  | EvHist (data : column) (bins : nat) (range : Z * Z).

(** ** Store and monad *)

Definition loc := nat.

Record state := mkState {
  tables : list Table;          (* astropy tables, by location *)
  accs : list (list LCRow);     (* MultiIndexDFObject.data, by location *)
  trace : list event            (* calls that left the process, oldest first *)
}.

Definition M (A : Type) : Type := state → outcome A * state.

#[global] Instance M_ret : MRet M := λ A a s, (Ok a, s).
#[global] Instance M_bind : MBind M := λ A B f m s,
  match m s with
  | (Ok a, s') => f a s'
  | (Raise e, s') => (Raise e, s')
  end.

Definition raise {A} (e : exn) : M A := λ s, (Raise e, s).

Definition lift {A} (o : outcome A) : M A := λ s, (o, s).

Definition emit (ev : event) : M unit := λ s,
  (Ok (), mkState (tables s) (accs s) (trace s ++ [ev])).

Definition new_table (t : Table) : M loc := λ s,
  (Ok (length (tables s)), mkState (tables s ++ [t]) (accs s) (trace s)).

Definition read_table (l : loc) : M Table := λ s,
  match tables s !! l with
  | Some t => (Ok t, s)
  | None => (Raise Dangling, s)
  end.

Definition write_table (l : loc) (t : Table) : M unit := λ s,
  match tables s !! l with
  | Some _ => (Ok (), mkState (<[l := t]> (tables s)) (accs s) (trace s))
  | None => (Raise Dangling, s)
  end.

(** [xs[i]] on a Python list, for [i >= 0]. *)
Definition list_getitem {A} (xs : list A) (i : nat) : M A :=
  match xs !! i with
  | Some x => mret x
  | None => raise IndexError
  end.

(** [for x in xs: body(x)] *)
Fixpoint for_each {A} (xs : list A) (body : A → M unit) : M unit :=
  match xs with
  | [] => mret ()
  | x :: xs' => body x ≫= λ _, for_each xs' body
  end.

(** ** astropy tables *)

Definition table_len (t : Table) : nat :=
  match t with
  | [] => 0
  | (_, c) :: _ => length c
  end.

(** [t[name]] *)
Fixpoint column_of (t : Table) (name : string) : outcome column :=
  match t with
  | [] => Raise (KeyError name)
  | (n, c) :: t' => if String.eqb n name then Ok c else column_of t' name
  end.

(** [t[name1, name2, ...]]: a new table holding copies of the named
    columns. *)
Fixpoint columns_of (t : Table) (names : list string) : outcome Table :=
  match names with
  | [] => Ok []
  | n :: names' =>
      c ← column_of t n;
      rest ← columns_of t names';
      Ok ((n, c) :: rest)
  end.

Fixpoint replace_column (t : Table) (name : string) (c : column) : Table :=
  match t with
  | [] => []
  | (n, c') :: t' =>
      if String.eqb n name then (n, c) :: t'
      else (n, c') :: replace_column t' name c
  end.

Definition has_column (t : Table) (name : string) : bool :=
  existsb (λ nc, String.eqb nc.1 name) t.

(** [t[name] = c]: replaces the column of that name, or adds it as the
    last column; a table that already has columns refuses a column of
    another length. *)
Definition set_column (t : Table) (name : string) (c : column) : outcome Table :=
  match t with
  | [] => Ok [(name, c)]
  | _ :: _ =>
      if negb (length c =? table_len t) then Raise ValueError
      else if has_column t name then Ok (replace_column t name c)
      else Ok (t ++ [(name, c)])
  end.

Fixpoint map_outcome {A B} (f : A → outcome B) (xs : list A) : outcome (list B) :=
  match xs with
  | [] => Ok []
  | x :: xs' =>
      y ← f x;
      ys ← map_outcome f xs';
      Ok (y :: ys)
  end.

(** [col.ra.deg] and [col.dec.deg] on a [SkyCoord] column. *)
Definition ra_deg_of (v : value) : outcome value :=
  match v with
  | VCoord ra _ => Ok (VFloat ra)
  | _ => Raise (AttributeError "ra")
  end.

Definition dec_deg_of (v : value) : outcome value :=
  match v with
  | VCoord _ dec => Ok (VFloat dec)
  | _ => Raise (AttributeError "dec")
  end.

(** ** pandas *)

Fixpoint frame_rows (flux err : list float) (time object_id : column)
    (band : list string) (label : column) : list LCRow :=
  match flux, err, time, object_id, band, label with
  | f :: flux', e :: err', t :: time', o :: object_id', b :: band', l :: label' =>
      mkLCRow o l b t f e :: frame_rows flux' err' time' object_id' band' label'
  | _, _, _, _, _, _ => []
  end.

(** [pd.DataFrame(dict(flux=.., err=.., time=.., object_id=.., band=..,
    label=..)).set_index(["object_id", "label", "band", "time"])]:
    the arrays must all have one length; [set_index] moves four columns
    into the index and keeps the rows. *)
Definition DataFrame (flux err : list float) (time object_id : column)
    (band : list string) (label : column) : outcome (list LCRow) :=
  if forallb (Nat.eqb (length flux))
       [length err; length time; length object_id; length band; length label]
  then Ok (frame_rows flux err time object_id band label)
  else Raise ValueError.

(** Modelled from the spec: [MultiIndexDFObject] comes from the module
    [data_structures], which is not part of the sources at hand.  The spec
    describes it as an append-only collection of light-curve rows that
    receives batches through [append(batch)] and is only ever grown.  A new
    object holds no row; [append] puts the batch after the rows held. *)
Definition MultiIndexDFObject : M loc := λ s,
  (Ok (length (accs s)), mkState (tables s) (accs s ++ [[]]) (trace s)).

(** Modelled from the spec: [append(batch)] of the same class; the rows of
    the batch come after the rows already held, none is dropped or merged. *)
Definition MultiIndexDFObject_append (self : loc) (x : list LCRow) : M unit := λ s,
  match accs s !! self with
  | Some data => (Ok (), mkState (tables s) (<[self := data ++ x]> (accs s)) (trace s))
  | None => (Raise Dangling, s)
  end.

(** ** pyvo *)

Definition pyvo_regsearch (env : Registry) (servicetype : string)
    (keywords : list string) : M (list TapService) :=
  emit (EvRegsearch servicetype keywords) ≫= λ _,
  lift (regsearch env servicetype keywords).

Definition tap_run_sync (svc : TapService) (q : Query)
    (uploads : list (string * Table)) : M Table :=
  emit (EvRunSync q uploads) ≫= λ _,
  lift (run_sync svc q uploads).

(** ** matplotlib *)

(** The call is logged when it is made, as the queries are; what comes
    back is the backend's. *)
Definition pyplot_hist (plt : Pyplot) (data : column) (bins : nat)
    (range : Z * Z) : M unit :=
  emit (EvHist data bins range) ≫= λ _,
  lift (hist plt data bins range).

(** ** numpy *)

(** What an element of [np.full(n, s)] reads back as, for a string [s]:
    numpy keeps the string in a fixed-width array and gives it back without
    its trailing NUL characters. *)
Fixpoint np_str (s : string) : string :=
  match s with
  | EmptyString => EmptyString
  | String c s' =>
      match np_str s' with
      | EmptyString => if Ascii.eqb c Ascii.zero then EmptyString else String c EmptyString
      | String c' rest => String c (String c' rest)
      end
  end.


(** ** The two functions of the module *)

(** [SELECT TOP 5000 cat.name, cat.ra, cat.dec, cat.error_radius
     FROM {missioncat} as cat] *)
Definition heasarcquery (missioncat : string) : Query :=
  {| q_top := Some 5000;
     q_select := ["cat.name"; "cat.ra"; "cat.dec"; "cat.error_radius"];
     q_from := [(missioncat, "cat")];
     q_where := [] |}.

Definition make_hist_error_radii (env : Registry) (plt : Pyplot)
    (missioncat : string) : M Table :=
  found ← pyvo_regsearch env "tap" ["heasarc"];
  heasarc_tap ← list_getitem found 0;
  heasarcresult ← tap_run_sync heasarc_tap (heasarcquery missioncat) [];
  let heasarcresulttable := heasarcresult in
  radii ← lift (column_of heasarcresulttable "error_radius");
  _ ← pyplot_hist plt radii 30 (0, 10)%Z;
  mret heasarcresulttable.

(** [SELECT cat.name, cat.ra, cat.dec, cat.error_radius, cat.time,
            mt.object_ID, mt.label
     FROM {heasarc_cat[m]} cat, tap_upload.mytable mt
     WHERE cat.error_radius < {max_error_radius[m]} AND
       CONTAINS(POINT('ICRS',mt.ra,mt.dec),
                CIRCLE('ICRS',cat.ra,cat.dec,cat.error_radius))=1] *)
Definition hquery (cat : string) (cutoff : float) : Query :=
  {| q_top := None;
     q_select := ["cat.name"; "cat.ra"; "cat.dec"; "cat.error_radius";
                  "cat.time"; "mt.object_ID"; "mt.label"];
     q_from := [(cat, "cat"); ("tap_upload.mytable", "mt")];
     q_where := [CLt "cat.error_radius" cutoff;
                 CContains ("ICRS", "mt.ra", "mt.dec")
                           ("ICRS", "cat.ra", "cat.dec", "cat.error_radius")] |}.

(** Lines 114-117: the frame built from one result table. *)
Definition df_heasarc (cat : string) (hresulttable : Table) : outcome (list LCRow) :=
  let n := table_len hresulttable in
  time ← column_of hresulttable "time";
  object_id ← column_of hresulttable "object_id";
  label ← column_of hresulttable "label";
  DataFrame (replicate n 0.1%float) (replicate n 0.1%float)
            time object_id (replicate n (np_str cat)) label.

(** The body of the loop, lines 95-120, for one index [m].  The source
    reads [heasarc_cat[m]] again in the f-strings and in the frame; the list
    is not changed in between, so the first reading is reused. *)
Definition lightcurve_step (heasarc_tap : TapService) (upload_table df_lc : loc)
    (heasarc_cat : list string) (max_error_radius : list float) (m : nat) : M unit :=
  cat ← list_getitem heasarc_cat m;
  _ ← emit (EvPrintMission cat);
  cutoff ← list_getitem max_error_radius m;
  uploaded ← read_table upload_table;
  hresult ← tap_run_sync heasarc_tap (hquery cat cutoff) [("mytable", uploaded)];
  _ ← emit (EvPrintLength cat (table_len hresult));
  let hresulttable := hresult in
  batch ← lift (df_heasarc cat hresulttable);
  MultiIndexDFObject_append df_lc batch.

(** Lines 83-85: the table sent along with every query. *)
Definition prepare_upload_table (source_table : loc) : M loc :=
  src ← read_table source_table;
  projected ← lift (columns_of src ["object_id"; "label"]);
  upload_table ← new_table projected;
  (* upload_table['ra'] = source_table['coord'].ra.deg *)
  src ← read_table source_table;
  coord ← lift (column_of src "coord");
  ra ← lift (map_outcome ra_deg_of coord);
  up ← read_table upload_table;
  up' ← lift (set_column up "ra" ra);
  _ ← write_table upload_table up';
  (* upload_table['dec'] = source_table['coord'].dec.deg *)
  src ← read_table source_table;
  coord ← lift (column_of src "coord");
  dec ← lift (map_outcome dec_deg_of coord);
  up ← read_table upload_table;
  up' ← lift (set_column up "dec" dec);
  _ ← write_table upload_table up';
  mret upload_table.

Definition HEASARC_get_lightcurves (env : Registry) (source_table : loc)
    (heasarc_cat : list string) (max_error_radius : list float) : M loc :=
  upload_table ← prepare_upload_table source_table;
  df_lc ← MultiIndexDFObject;
  found ← pyvo_regsearch env "tap" ["heasarc"];
  heasarc_tap ← list_getitem found 0;
  (* tqdm only draws a progress bar around the range *)
  _ ← for_each (seq 0 (length heasarc_cat))
        (lightcurve_step heasarc_tap upload_table df_lc heasarc_cat max_error_radius);
  mret df_lc.

(** ** Reading a trace *)

Definition query_of (ev : event) : option (Query * list (string * Table)) :=
  match ev with
  | EvRunSync q uploads => Some (q, uploads)
  | _ => None
  end.

(** The synchronous queries of a trace, oldest first. *)
Definition queries_of (tr : list event) : list (Query * list (string * Table)) :=
  omap query_of tr.

(** ** Vocabulary for the statements *)

(** The three assignments of lines 83-85, read as one function of the
    source table's content. *)
Definition upload_table_of (src : Table) : outcome Table :=
  projected ← columns_of src ["object_id"; "label"];
  coord ← column_of src "coord";
  ra ← map_outcome ra_deg_of coord;
  up ← set_column projected "ra" ra;
  dec ← map_outcome dec_deg_of coord;
  set_column up "dec" dec.

(** What one successful turn of the loop leaves in the trace. *)
Definition step_events (u : Table) (c : string) (r : float) (t : Table) : list event :=
  [EvPrintMission c; EvRunSync (hquery c r) [("mytable", u)];
   EvPrintLength c (table_len t)].

Fixpoint loop_events (u : Table) (cs : list string) (rs : list float)
    (ts : list Table) : list event :=
  match cs, rs, ts with
  | c :: cs', r :: rs', t :: ts' => step_events u c r t ++ loop_events u cs' rs' ts'
  | _, _, _ => []
  end.

(** The state a call started in [s] has reached once the catalogs [cs]
    have been worked through. *)
Definition after_catalogs (s : state) (u : Table) (cs : list string)
    (rs : list float) (ts : list Table) (bs : list (list LCRow)) : state :=
  mkState (tables s ++ [u]) (accs s ++ [concat bs])
    (trace s ++ EvRegsearch "tap" ["heasarc"] :: loop_events u cs rs ts).

(** The query sent for catalog [c] with cutoff [r], with its upload. *)
Definition sent (u : Table) (c : string) (r : float) : Query * list (string * Table) :=
  (hquery c r, [("mytable", u)]).

(** The service answers the query for catalog [c] and cutoff [r] with the
    table [t]. *)
Definition answered (svc : TapService) (u : Table)
    (c : string) (r : float) (t : Table) : Prop :=
  run_sync svc (hquery c r) [("mytable", u)] = Ok t.

(** The result table [t] of catalog [c] makes the frame [b]. *)
Definition framed (c : string) (t : Table) (b : list LCRow) : Prop :=
  df_heasarc c t = Ok b.

(** [b] is the frame of some catalog of the list, queried with the cutoff
    of the same index. *)
Definition batch_from (svc : TapService) (cats : list string) (radii : list float)
    (u : Table) (b : list LCRow) : Prop :=
  ∃ m c r t, cats !! m = Some c ∧ radii !! m = Some r
             ∧ answered svc u c r t ∧ framed c t b.

(** A query of the loop: some catalog of the list with the cutoff of the
    same index, and the upload table. *)
Definition query_ok (cats : list string) (radii : list float) (u : Table)
    (qu : Query * list (string * Table)) : Prop :=
  ∃ m c r, cats !! m = Some c ∧ radii !! m = Some r ∧ qu = sent u c r.

(** A result table without rows: the columns the frame is built from are
    there and hold nothing. *)
Definition empty_result (t : Table) : Prop :=
  table_len t = 0
  ∧ column_of t "time" = Ok []
  ∧ column_of t "object_id" = Ok []
  ∧ column_of t "label" = Ok [].

(** ** How the service reads a WHERE clause

    The catalog service is no part of the repository; what it does with
    a query is taken from the spec.  A row of the join is seen through the
    numbers its column references stand for.  The geometry of CONTAINS
    stays a parameter. *)
Section adql.
Variable contains : float * float → float * float * float → bool.

(** Modelled from the spec: the evaluation of one condition by the remote
    catalog service.  The spec (4.2, step 2) reads the first condition of
    the join query as the strict inequality
    [catalog.error_radius < max_error_radii[i]] and the second as the test
    that the target point lies within the circle of the catalog entry.  A
    comparison with a missing number does not hold. *)
Definition cond_holds (row : string → option float) (c : condition) : bool :=
  match c with
  | CLt lhs rhs =>
      match row lhs with
      | Some x => (x <? rhs)%float
      | None => false
      end
  | CContains (_, pra, pdec) (_, cra, cdec, crad) =>
      match row pra, row pdec, row cra, row cdec, row crad with
      | Some x, Some y, Some x0, Some y0, Some rad => contains (x, y) (x0, y0, rad)
      | _, _, _, _, _ => false
      end
  end.

(** Modelled from the spec: the conditions of a WHERE clause are joined
    by AND. *)
Definition where_holds (row : string → option float) (q : Query) : bool :=
  forallb (cond_holds row) (q_where q).

(** Modelled from the spec: the rows of the join the service keeps for a
    query are those on which its WHERE clause holds. *)
Definition select_rows (q : Query) (rows : list (string → option float))
    : list (string → option float) :=
  filter (λ row, where_holds row q = true) rows.
End adql.

(** ** A small world to run the functions in

    Two targets labelled A; a service that knows catalog CAT1 (two
    events near the first target), catalog CAT0 (no event near any
    target) and fails on every other catalog; a store in which the
    caller already keeps an accumulator with one row of another survey. *)
Module Scenario.
Definition source_table : Table :=
  [("object_id", [VInt 1; VInt 2]);
   ("coord", [VCoord 150.25 2.5; VCoord 10 45.5]);
   ("label", [VStr "A"; VStr "A"])].

Definition upload_table : Table :=
  [("object_id", [VInt 1; VInt 2]);
   ("label", [VStr "A"; VStr "A"]);
   ("ra", [VFloat 150.25; VFloat 10]);
   ("dec", [VFloat 2.5; VFloat 45.5])].

Definition cat1_hits : Table :=
  [("name", [VStr "GRB 1"; VStr "GRB 2"]);
   ("ra", [VFloat 150; VFloat 151]);
   ("dec", [VFloat 2; VFloat 3]);
   ("error_radius", [VFloat 1.5; VFloat 3]);
   ("time", [VFloat 100; VFloat 200]);
   ("object_id", [VInt 1; VInt 1]);
   ("label", [VStr "A"; VStr "A"])].

Definition no_hits : Table :=
  [("name", []); ("ra", []); ("dec", []); ("error_radius", []);
   ("time", []); ("object_id", []); ("label", [])].

(** A sample of a catalog; one error radius lies beyond 10 degrees. *)
Definition sample : Table :=
  [("name", [VStr "GRB 1"; VStr "GRB 3"]);
   ("ra", [VFloat 150; VFloat 20]);
   ("dec", [VFloat 2; VFloat 30]);
   ("error_radius", [VFloat 1.5; VFloat 25])].

Definition heasarc : TapService :=
  {| run_sync q uploads :=
       match q_top q, q_from q with
       | Some _, _ => Ok sample
       | None, (cat, _) :: _ =>
           if String.eqb cat "CAT1" then Ok cat1_hits
           else if String.eqb cat "CAT0" then Ok no_hits
           else Raise (RemoteFailure "unknown table")
       | None, [] => Raise (RemoteFailure "malformed query")
       end |}.

Definition registry : Registry :=
  {| regsearch servicetype keywords := Ok [heasarc] |}.

Definition survey_row : LCRow :=
  mkLCRow (VInt 1) (VStr "A") "W1" (VFloat 55000) 1.25 0.5.

Definition cat1_rows : list LCRow :=
  [mkLCRow (VInt 1) (VStr "A") "CAT1" (VFloat 100) 0.1 0.1;
   mkLCRow (VInt 1) (VStr "A") "CAT1" (VFloat 200) 0.1 0.1].

(** The source table is object 0 of the table store, the caller's
    accumulator object 0 of the accumulator store. *)
Definition before : state := mkState [source_table] [[survey_row]] [].

(** A plotting backend that draws whatever it is given. *)
Definition pyplot : Pyplot := {| hist data bins range := Ok () |}.
End Scenario.

(** ** Vocabulary for the edge cases *)

(** The first of the columns [names], in that order, that the table [t]
    lacks. *)
Definition first_lacking (names : list string) (t : Table) : option string :=
  find (λ n, negb (has_column t n)) names.

(** The events a turn of the loop can leave: the two prints and the query. *)
Definition loop_event (ev : event) : Prop :=
  match ev with
  | EvPrintMission _ | EvRunSync _ _ | EvPrintLength _ _ => True
  | EvRegsearch _ _ | EvHist _ _ _ => False
  end.



Definition length_print_of (ev : event) : option (string * nat) :=
  match ev with
  | EvPrintLength cat n => Some (cat, n)
  | _ => None
  end.

(** The catalog lengths a trace has printed, oldest first. *)
Definition length_prints_of (tr : list event) : list (string * nat) :=
  omap length_print_of tr.

(** A [SkyCoord] column built from (ra, dec) pairs in degrees. *)
Definition skycoord (pts : list (float * float)) : column :=
  map (λ p, VCoord p.1 p.2) pts.

(** Worlds in which something is missing. *)
Module Faults.
(** A target table without labels. *)
Definition unlabelled_table : Table :=
  [("object_id", [VInt 1; VInt 2]);
   ("coord", [VCoord 150.25 2.5; VCoord 10 45.5])].

Definition before : state := mkState [unlabelled_table] [] [].

(** A registry that knows no service. *)
Definition empty_registry : Registry :=
  {| regsearch servicetype keywords := Ok [] |}.

(** A result table without the time column. *)
Definition timeless_hits : Table :=
  [("name", [VStr "GRB 1"]); ("object_id", [VInt 1]); ("label", [VStr "A"])].

(** A sample without the error radius column. *)
Definition bare_sample : Table :=
  [("name", [VStr "GRB 1"]); ("ra", [VFloat 150]); ("dec", [VFloat 2])].

(** A service that answers CAT1 as in [Scenario], answers every other
    catalog with a table without times, answers samples without radii,
    and fails on a sample of the table NONE. *)
Definition careless : TapService :=
  {| run_sync q uploads :=
       match q_top q, q_from q with
       | Some _, (cat, _) :: _ =>
           if String.eqb cat "NONE" then Raise (RemoteFailure "unknown table")
           else Ok bare_sample
       | Some _, [] => Raise (RemoteFailure "malformed query")
       | None, (cat, _) :: _ =>
           if String.eqb cat "CAT1" then Ok Scenario.cat1_hits
           else Ok timeless_hits
       | None, [] => Raise (RemoteFailure "malformed query")
       end |}.

Definition careless_registry : Registry :=
  {| regsearch servicetype keywords := Ok [careless] |}.



End Faults.

(** ** Running the monad *)

Lemma run_bind {A B} (m : M A) (f : A → M B) (s : state) :
  (m ≫= f) s = match m s with
               | (Ok a, s') => f a s'
               | (Raise e, s') => (Raise e, s')
               end.
Proof. reflexivity. Qed.

Lemma run_bind_ok {A B} (m : M A) (f : A → M B) (s s' : state) (a : A) :
  m s = (Ok a, s') → (m ≫= f) s = f a s'.
Proof. intros H. rewrite run_bind, H. reflexivity. Qed.

Lemma run_bind_raise {A B} (m : M A) (f : A → M B) (s s' : state) (e : exn) :
  m s = (Raise e, s') → (m ≫= f) s = (Raise e, s').
Proof. intros H. rewrite run_bind, H. reflexivity. Qed.

Lemma list_getitem_head {A} (x : A) (xs : list A) (s : state) :
  list_getitem (x :: xs) 0 s = (Ok x, s).
Proof. reflexivity. Qed.

Lemma for_each_app {A} (xs ys : list A) (body : A → M unit) (s : state) :
  for_each (xs ++ ys) body s = (for_each xs body ≫= λ _, for_each ys body) s.
Proof.
  revert s. induction xs as [|x xs IH]; intros s; simpl.
  - reflexivity.
  - rewrite !run_bind. destruct (body x s) as [[[]|e] s1]; [|reflexivity].
    rewrite IH. reflexivity.
Qed.

Lemma store_lookup_new {A} (T : list A) (x : A) : (T ++ [x]) !! length T = Some x.
Proof. by apply list_lookup_middle. Qed.

Lemma store_insert_new {A} (T : list A) (x y : A) :
  <[length T := y]> (T ++ [x]) = T ++ [y].
Proof. rewrite insert_app_r_alt by lia. by rewrite Nat.sub_diag. Qed.

Lemma read_table_run (l : loc) (t : Table) (s : state) :
  tables s !! l = Some t → read_table l s = (Ok t, s).
Proof. intros H. unfold read_table. by rewrite H. Qed.

Lemma write_table_run (l : loc) (t t' : Table) (s : state) :
  tables s !! l = Some t →
  write_table l t' s = (Ok (), mkState (<[l := t']> (tables s)) (accs s) (trace s)).
Proof. intros H. unfold write_table. by rewrite H. Qed.

Lemma append_run (l : loc) (data x : list LCRow) (s : state) :
  accs s !! l = Some data →
  MultiIndexDFObject_append l x s
  = (Ok (), mkState (tables s) (<[l := data ++ x]> (accs s)) (trace s)).
Proof. intros H. unfold MultiIndexDFObject_append. by rewrite H. Qed.

(** Replays, in [upload_table_of], the pure steps already taken in the
    monadic code. *)
Ltac replay_upload :=
  unfold upload_table_of;
  repeat match goal with
         | H : _ = Ok _ |- _ => rewrite H; cbn [mbind outcome_bind]
         | H : _ = Raise _ |- _ => rewrite H; cbn [mbind outcome_bind]
         end.

(** Closes a case of [prepare_upload_run] in which a pure step raised [e]
    and the store has gained the tables [tbl]. *)
Ltac stops_with e tbl :=
  exists (Raise e), tbl; rewrite ?app_nil_r;
  split_and!; [done | simpl; lia | done | intros ? ? [= <-]; by replay_upload].

(** Every way [prepare_upload_table] can end: it adds at most one table to
    the store and touches nothing else; it returns exactly when
    [upload_table_of] does, and the new table then holds that value. *)
Lemma prepare_upload_run (src : loc) (s : state) :
  ∃ o tbl,
    prepare_upload_table src s = (o, mkState (tables s ++ tbl) (accs s) (trace s))
    ∧ length tbl ≤ 1
    ∧ (∀ l, o = Ok l →
         l = length (tables s) ∧
         ∃ t u, tables s !! src = Some t ∧ upload_table_of t = Ok u ∧ tbl = [u])
    ∧ (∀ t u, tables s !! src = Some t → upload_table_of t = Ok u →
         o = Ok (length (tables s)) ∧ tbl = [u]).
Proof.
  destruct s as [T A tr]. unfold prepare_upload_table.
  cbn [tables accs trace].
  rewrite run_bind. unfold read_table at 1. cbn [tables].
  destruct (T !! src) as [t|] eqn:Ht.
  2: { exists (Raise Dangling), []. rewrite app_nil_r.
       split_and!; [done | simpl; lia | done | done]. }
  rewrite run_bind. unfold lift at 1.
  destruct (columns_of t ["object_id"; "label"]) as [p|e] eqn:Hp;
    [|stops_with e (@nil Table)].
  rewrite run_bind. unfold new_table at 1. cbn [tables accs trace].
  rewrite (run_bind_ok _ _ _ _ t) by (apply read_table_run; by apply lookup_app_l_Some).
  rewrite run_bind. unfold lift at 1.
  destruct (column_of t "coord") as [coord|e] eqn:Hc; [|stops_with e [p]].
  rewrite run_bind. unfold lift at 1.
  destruct (map_outcome ra_deg_of coord) as [ra|e] eqn:Hra; [|stops_with e [p]].
  rewrite (run_bind_ok _ _ _ _ p) by (apply read_table_run; apply store_lookup_new).
  rewrite run_bind. unfold lift at 1.
  destruct (set_column p "ra" ra) as [up|e] eqn:Hup; [|stops_with e [p]].
  erewrite run_bind_ok by (eapply write_table_run; apply store_lookup_new).
  cbn [tables accs trace]. rewrite store_insert_new.
  rewrite (run_bind_ok _ _ _ _ t) by (apply read_table_run; by apply lookup_app_l_Some).
  rewrite run_bind. unfold lift at 1. rewrite Hc.
  rewrite run_bind. unfold lift at 1.
  destruct (map_outcome dec_deg_of coord) as [dec|e] eqn:Hdec; [|stops_with e [up]].
  rewrite (run_bind_ok _ _ _ _ up) by (apply read_table_run; apply store_lookup_new).
  rewrite run_bind. unfold lift at 1.
  destruct (set_column up "dec" dec) as [up'|e] eqn:Hup'; [|stops_with e [up]].
  erewrite run_bind_ok by (eapply write_table_run; apply store_lookup_new).
  cbn [tables accs trace]. rewrite store_insert_new.
  exists (Ok (length T)), [up'].
  split_and!; [done | simpl; lia | |].
  - intros l [= <-]. split; [done|]. exists t, up'. split; [done|]. by replay_upload.
  - intros ? ? [= <-]. replay_upload. by intros [= <-].
Qed.

(** Closes a case of [prepare_upload_raises]: the pure step that raised
    is the one at which [upload_table_of] raises. *)
Ltac raised_with He tbl :=
  exists tbl; rewrite ?app_nil_r; revert He; replay_upload; by intros [= <-].

(** The prelude raises what [upload_table_of] raises, and then leaves the
    trace and the accumulators alone. *)
Lemma prepare_upload_raises (src : loc) (s : state) (t : Table) (e : exn) :
  tables s !! src = Some t → upload_table_of t = Raise e →
  ∃ tbl, prepare_upload_table src s
         = (Raise e, mkState (tables s ++ tbl) (accs s) (trace s)).
Proof.
  destruct s as [T A tr]. cbn [tables accs trace]. intros Ht He.
  unfold prepare_upload_table.
  erewrite run_bind_ok by (by apply read_table_run).
  rewrite run_bind. unfold lift at 1.
  destruct (columns_of t ["object_id"; "label"]) as [p|e'] eqn:Hp;
    [|raised_with He (@nil Table)].
  rewrite run_bind. unfold new_table at 1. cbn [tables accs trace].
  rewrite (run_bind_ok _ _ _ _ t) by (apply read_table_run; by apply lookup_app_l_Some).
  rewrite run_bind. unfold lift at 1.
  destruct (column_of t "coord") as [coord|e'] eqn:Hc; [|raised_with He [p]].
  rewrite run_bind. unfold lift at 1.
  destruct (map_outcome ra_deg_of coord) as [ra|e'] eqn:Hra; [|raised_with He [p]].
  rewrite (run_bind_ok _ _ _ _ p) by (apply read_table_run; apply store_lookup_new).
  rewrite run_bind. unfold lift at 1.
  destruct (set_column p "ra" ra) as [up|e'] eqn:Hup; [|raised_with He [p]].
  erewrite run_bind_ok by (eapply write_table_run; apply store_lookup_new).
  cbn [tables accs trace]. rewrite store_insert_new.
  rewrite (run_bind_ok _ _ _ _ t) by (apply read_table_run; by apply lookup_app_l_Some).
  rewrite run_bind. unfold lift at 1. rewrite Hc.
  rewrite run_bind. unfold lift at 1.
  destruct (map_outcome dec_deg_of coord) as [dec|e'] eqn:Hdec; [|raised_with He [up]].
  rewrite (run_bind_ok _ _ _ _ up) by (apply read_table_run; apply store_lookup_new).
  rewrite run_bind. unfold lift at 1.
  destruct (set_column up "dec" dec) as [up'|e'] eqn:Hup'; [|raised_with He [up]].
  exfalso. revert He. replay_upload. discriminate.
Qed.

(** When the prelude raises, the call raises the same and does nothing
    more. *)
Lemma fetch_prelude_raises (env : Registry) (src : loc) (cats : list string)
    (radii : list float) (s : state) (t : Table) (e : exn) :
  tables s !! src = Some t → upload_table_of t = Raise e →
  ∃ tbl, HEASARC_get_lightcurves env src cats radii s
         = (Raise e, mkState (tables s ++ tbl) (accs s) (trace s)).
Proof.
  intros Ht He. destruct (prepare_upload_raises src s t e Ht He) as [tbl Hrun].
  exists tbl. unfold HEASARC_get_lightcurves. by erewrite run_bind_raise.
Qed.

(** ** One turn of the loop *)

Section loop.
Variables (svc : TapService) (up a : loc).
Variables (cats : list string) (radii : list float).
Variable u : Table.

Abbreviation step := (lightcurve_step svc up a cats radii).

Lemma lightcurve_step_run (m : nat) (s : state) (d : list LCRow) :
  tables s !! up = Some u → accs s !! a = Some d →
  step m s =
    match cats !! m with
    | None => (Raise IndexError, s)
    | Some c =>
      match radii !! m with
      | None => (Raise IndexError,
                 mkState (tables s) (accs s) (trace s ++ [EvPrintMission c]))
      | Some r =>
        match run_sync svc (hquery c r) [("mytable", u)] with
        | Raise e =>
            (Raise e, mkState (tables s) (accs s)
                        (trace s ++ [EvPrintMission c;
                                     EvRunSync (hquery c r) [("mytable", u)]]))
        | Ok t =>
          match df_heasarc c t with
          | Raise e => (Raise e, mkState (tables s) (accs s)
                                   (trace s ++ step_events u c r t))
          | Ok b => (Ok (), mkState (tables s) (<[a := d ++ b]> (accs s))
                              (trace s ++ step_events u c r t))
          end
        end
      end
    end.
Proof.
  intros Hu Hd. destruct s as [T A tr]. cbn [tables accs trace] in *.
  unfold lightcurve_step, list_getitem.
  destruct (cats !! m) as [c|]; [|reflexivity].
  rewrite run_bind. cbn [mret M_ret]. rewrite run_bind.
  unfold emit at 1. cbn [tables accs trace].
  destruct (radii !! m) as [r|]; [|reflexivity].
  rewrite run_bind. cbn [mret M_ret].
  erewrite run_bind_ok by (by apply read_table_run).
  rewrite run_bind. unfold tap_run_sync at 1. rewrite run_bind.
  unfold emit at 1, lift at 1. cbn [tables accs trace].
  rewrite <- !app_assoc. cbn [app].
  destruct (run_sync svc _ _) as [t|e]; [|reflexivity].
  rewrite run_bind. unfold emit at 1. cbn [tables accs trace].
  rewrite <- !app_assoc. cbn [app].
  rewrite run_bind. unfold lift at 1.
  destruct (df_heasarc c t) as [b|e]; [|reflexivity].
  by erewrite append_run.
Qed.

(** The loop, however it ends: the tables are left alone, only the
    accumulator at [a] changes, by whole frames put after what it held,
    and every query sent is one of the list's, with the upload table. *)
Lemma loop_inv (ms : list nat) (s : state) (d : list LCRow) :
  tables s !! up = Some u → accs s !! a = Some d →
  ∃ o bs evs,
    for_each ms step s
    = (o, mkState (tables s) (<[a := d ++ concat bs]> (accs s)) (trace s ++ evs))
    ∧ Forall (batch_from svc cats radii u) bs
    ∧ Forall (query_ok cats radii u) (queries_of evs).
Proof.
  revert s d. induction ms as [|m ms IH]; intros s d Hu Hd.
  - exists (Ok ()), [], []. simpl. rewrite !app_nil_r.
    rewrite list_insert_id by done. by destruct s.
  - simpl. rewrite run_bind, (lightcurve_step_run m s d Hu Hd).
    assert (Hid : <[a := d ++ concat []]> (accs s) = accs s).
    { simpl. rewrite app_nil_r. by apply list_insert_id. }
    destruct (cats !! m) as [c|] eqn:Hc.
    2: { exists (Raise IndexError), [], []. rewrite Hid, app_nil_r.
         destruct s; split_and!; done. }
    destruct (radii !! m) as [r|] eqn:Hr.
    2: { exists (Raise IndexError), [], [EvPrintMission c]. rewrite Hid.
         split_and!; [done | done | by constructor]. }
    destruct (run_sync svc _ _) as [t|e] eqn:Ht.
    2: { eexists (Raise e), [], _. rewrite Hid.
         split_and!; [done | done |].
         repeat constructor. by exists m, c, r. }
    assert (Hq : Forall (query_ok cats radii u) (queries_of (step_events u c r t))).
    { repeat constructor. by exists m, c, r. }
    destruct (df_heasarc c t) as [b|e] eqn:Hb.
    2: { eexists (Raise e), [], _. rewrite Hid. done. }
    set (s1 := mkState _ _ _).
    destruct (IH s1 (d ++ b)) as (o & bs & evs & Hrun & Hbs & Hevs).
    { done. }
    { simpl. apply list_lookup_insert_eq. by eapply lookup_lt_Some. }
    exists o, (b :: bs), (step_events u c r t ++ evs).
    rewrite Hrun. subst s1. cbn [tables accs trace].
    rewrite list_insert_insert_eq, <- !app_assoc. split_and!.
    + reflexivity.
    + constructor; [|done]. by exists m, c, r, t.
    + unfold queries_of. rewrite omap_app. apply Forall_app. done.
Qed.

(** The loop over a stretch of indices whose queries are all answered
    and framed. *)
Lemma loop_ok (cs : list string) (rs : list float) (ts : list Table)
    (bs : list (list LCRow)) (k : nat) (s : state) (d : list LCRow) :
  Forall3 (answered svc u) cs rs ts → Forall3 framed cs ts bs →
  (∀ j c, cs !! j = Some c → cats !! (k + j) = Some c) →
  (∀ j r, rs !! j = Some r → radii !! (k + j) = Some r) →
  tables s !! up = Some u → accs s !! a = Some d →
  for_each (seq k (length cs)) step s
  = (Ok (), mkState (tables s) (<[a := d ++ concat bs]> (accs s))
              (trace s ++ loop_events u cs rs ts)).
Proof.
  intros Hans. revert bs k s d.
  induction Hans as [|c r t cs rs ts Hc Hans IH]; intros bs k s d Hfr Hcs Hrs Hu Hd.
  - inversion Hfr; subst. simpl. rewrite !app_nil_r.
    rewrite list_insert_id by done. by destruct s.
  - inversion Hfr as [|? ? b ? ? bs' Hb Hfr']; subst.
    cbn [length seq for_each]. rewrite run_bind.
    rewrite (lightcurve_step_run k s d Hu Hd).
    specialize (Hcs 0 c eq_refl) as Hc0. specialize (Hrs 0 r eq_refl) as Hr0.
    rewrite Nat.add_0_r in Hc0, Hr0. rewrite Hc0, Hr0.
    unfold answered in Hc. rewrite Hc. unfold framed in Hb. rewrite Hb.
    rewrite (IH bs' (S k) _ (d ++ b)); cbn [tables accs trace].
    + rewrite list_insert_insert_eq, <- !app_assoc. reflexivity.
    + done.
    + intros j c' Hj. replace (S k + j) with (k + S j) by lia. by apply Hcs.
    + intros j r' Hj. replace (S k + j) with (k + S j) by lia. by apply Hrs.
    + done.
    + apply list_lookup_insert_eq. by eapply lookup_lt_Some.
Qed.
End loop.

(** ** The whole fetch *)

Lemma queries_of_app (xs ys : list event) :
  queries_of (xs ++ ys) = queries_of xs ++ queries_of ys.
Proof. apply omap_app. Qed.

(** However a call ends, it adds at most one table and at most one
    accumulator to the store and changes no object that was there; its
    queries are those of the loop; and when it returns, it returns the
    accumulator it has just made, filled with the frames of the loop. *)
Lemma fetch_inv (env : Registry) (src : loc) (cats : list string)
    (radii : list float) (s : state) :
  ∃ o tbl acc evs,
    HEASARC_get_lightcurves env src cats radii s
    = (o, mkState (tables s ++ tbl) (accs s ++ acc) (trace s ++ evs))
    ∧ length tbl ≤ 1 ∧ length acc ≤ 1
    ∧ Forall (λ qu, ∃ t u, tables s !! src = Some t ∧ upload_table_of t = Ok u
                           ∧ tbl = [u] ∧ query_ok cats radii u qu) (queries_of evs)
    ∧ (∀ l, o = Ok l →
         l = length (accs s) ∧
         ∃ t u svc others bs,
           tables s !! src = Some t ∧ upload_table_of t = Ok u
           ∧ regsearch env "tap" ["heasarc"] = Ok (svc :: others)
           ∧ acc = [concat bs] ∧ Forall (batch_from svc cats radii u) bs).
Proof.
  unfold HEASARC_get_lightcurves.
  destruct (prepare_upload_run src s) as (o1 & tbl & Hrun & Htbl & Hok & _).
  rewrite run_bind, Hrun.
  destruct o1 as [up|e].
  2: { exists (Raise e), tbl, [], []. rewrite !app_nil_r.
       split_and!; [done | done | simpl; lia | constructor | done]. }
  destruct (Hok up eq_refl) as (-> & t & u & Ht & Hu & ->). clear Hok Hrun Htbl.
  rewrite run_bind. unfold MultiIndexDFObject at 1. cbn [tables accs trace].
  rewrite run_bind. unfold pyvo_regsearch at 1. rewrite run_bind.
  unfold emit at 1, lift at 1. cbn [tables accs trace].
  destruct (regsearch env "tap" ["heasarc"]) as [found|e] eqn:Hreg.
  2: { exists (Raise e), [u], [[]], [EvRegsearch "tap" ["heasarc"]].
       split_and!; [done | simpl; lia | simpl; lia | constructor | done]. }
  rewrite run_bind.
  destruct found as [|svc others].
  { exists (Raise IndexError), [u], [[]], [EvRegsearch "tap" ["heasarc"]].
    split_and!; [done | simpl; lia | simpl; lia | constructor | done]. }
  rewrite list_getitem_head, run_bind.
  set (s2 := mkState _ _ _).
  destruct (loop_inv svc (length (tables s)) (length (accs s)) cats radii u
              (seq 0 (length cats)) s2 [])
    as (o & bs & evs & Hloop & Hbs & Hevs).
  { apply store_lookup_new. }
  { apply store_lookup_new. }
  rewrite Hloop. subst s2. cbn [tables accs trace].
  rewrite store_insert_new, <- app_assoc. cbn [app].
  assert (Hq : Forall (λ qu, ∃ t' u', tables s !! src = Some t'
                 ∧ upload_table_of t' = Ok u' ∧ [u] = [u'] ∧ query_ok cats radii u' qu)
                 (queries_of (EvRegsearch "tap" ["heasarc"] :: evs))).
  { cbn. eapply Forall_impl; [exact Hevs|]. intros qu Hqu. by exists t, u. }
  destruct o as [[]|e].
  - eexists (Ok _), [u], [concat bs], _.
    split_and!; [done | simpl; lia | simpl; lia | done |].
    intros l [= <-]. split; [done|]. by exists t, u, svc, others, bs.
  - eexists (Raise e), [u], [concat bs], _.
    split_and!; [done | simpl; lia | simpl; lia | done | done].
Qed.

(** A call whose first catalogs [pre] are all answered and framed: the
    state it has reached when it turns to the catalogs [post] left. *)
Lemma fetch_prefix (env : Registry) (src : loc) (s : state) (t u : Table)
    (svc : TapService) (others : list TapService)
    (pre post : list string) (rpre radii : list float)
    (ts : list Table) (bs : list (list LCRow)) :
  tables s !! src = Some t → upload_table_of t = Ok u →
  regsearch env "tap" ["heasarc"] = Ok (svc :: others) →
  Forall3 (answered svc u) pre rpre ts → Forall3 framed pre ts bs →
  rpre `prefix_of` radii →
  HEASARC_get_lightcurves env src (pre ++ post) radii s
  = (for_each (seq (length pre) (length post))
       (lightcurve_step svc (length (tables s)) (length (accs s)) (pre ++ post) radii)
     ≫= λ _, mret (length (accs s)))
      (mkState (tables s ++ [u]) (accs s ++ [concat bs])
         (trace s ++ EvRegsearch "tap" ["heasarc"] :: loop_events u pre rpre ts)).
Proof.
  intros Ht Hu Hreg Hans Hfr [rpost ->].
  unfold HEASARC_get_lightcurves.
  destruct (prepare_upload_run src s) as (o1 & tbl & Hrun & _ & _ & Hok).
  destruct (Hok t u Ht Hu) as [-> ->].
  rewrite run_bind, Hrun.
  rewrite run_bind. unfold MultiIndexDFObject at 1. cbn [tables accs trace].
  rewrite run_bind. unfold pyvo_regsearch at 1. rewrite run_bind.
  unfold emit at 1, lift at 1. cbn [tables accs trace]. rewrite Hreg.
  rewrite run_bind, list_getitem_head.
  rewrite length_app, seq_app, Nat.add_0_l.
  rewrite (run_bind (for_each (_ ++ _) _)), for_each_app, run_bind.
  erewrite (loop_ok svc _ _ _ _ u pre rpre ts bs 0 _ []); cbn [tables accs trace].
  - rewrite store_insert_new, <- app_assoc. cbn [app]. by rewrite run_bind.
  - done.
  - done.
  - intros j c Hj. by apply lookup_app_l_Some.
  - intros j r Hj. by apply lookup_app_l_Some.
  - apply store_lookup_new.
  - apply store_lookup_new.
Qed.

(** ** Frames *)

Lemma frame_rows_replicate (P : LCRow → Prop) (x y : float) (c : string) :
  (∀ o l t, P (mkLCRow o l c t x y)) →
  ∀ n time object_id label,
    Forall P (frame_rows (replicate n x) (replicate n y) time object_id
                (replicate n c) label).
Proof.
  intros HP. induction n as [|n IH]; intros time object_id label; simpl.
  - constructor.
  - destruct time, object_id, label; try constructor; [apply HP | apply IH].
Qed.

Lemma frame_rows_length (n : nat) (x y : float) (c : string)
    (time object_id label : column) :
  length time = n → length object_id = n → length label = n →
  length (frame_rows (replicate n x) (replicate n y) time object_id
            (replicate n c) label) = n.
Proof.
  revert time object_id label. induction n as [|n IH]; intros time object_id label.
  - reflexivity.
  - destruct time, object_id, label; try discriminate.
    simpl. intros [=] [=] [=]. f_equal. by apply IH.
Qed.

(** Every row of a frame carries the catalog name, as numpy gives it back,
    as band and 0.1 as flux and as error; the frame has one row per row of
    the result table. *)
Lemma df_heasarc_rows (c : string) (t : Table) (b : list LCRow) :
  df_heasarc c t = Ok b →
  length b = table_len t
  ∧ Forall (λ row, lc_band row = np_str c ∧ lc_flux row = 0.1%float
                   ∧ lc_err row = 0.1%float) b.
Proof.
  unfold df_heasarc.
  destruct (column_of t "time") as [time|]; [|done].
  destruct (column_of t "object_id") as [object_id|]; [|done].
  destruct (column_of t "label") as [label|]; [|done].
  cbn [mbind outcome_bind]. unfold DataFrame.
  destruct (forallb _ _) eqn:Hlen; [|done].
  intros [= <-]. split.
  - cbn [forallb] in Hlen. rewrite !length_replicate in Hlen.
    rewrite !andb_true_iff, !Nat.eqb_eq in Hlen.
    destruct Hlen as (_ & ? & ? & _ & ? & _). by apply frame_rows_length.
  - by apply frame_rows_replicate.
Qed.

Lemma df_heasarc_empty (c : string) (t : Table) :
  empty_result t → df_heasarc c t = Ok [].
Proof.
  intros (Hlen & Htime & Hid & Hlabel). unfold df_heasarc.
  rewrite Hlen, Htime, Hid, Hlabel. reflexivity.
Qed.

Lemma queries_of_loop_events {P : string → float → Table → Prop} (u : Table)
    (cs : list string) (rs : list float) (ts : list Table) :
  Forall3 P cs rs ts → queries_of (loop_events u cs rs ts) = zip_with (sent u) cs rs.
Proof. induction 1; [done|]. cbn. by f_equal. Qed.

(** ** Three ways a call can go *)

Section runs.
Variables (env : Registry) (src : loc) (s : state).
Variables (t u : Table) (svc : TapService) (others : list TapService).
Hypothesis Hsrc : tables s !! src = Some t.
Hypothesis Hupload : upload_table_of t = Ok u.
Hypothesis Hreg : regsearch env "tap" ["heasarc"] = Ok (svc :: others).

(** Every catalog is answered and framed: the call returns. *)
Lemma fetch_ok (cats : list string) (rpre radii : list float)
    (ts : list Table) (bs : list (list LCRow)) :
  Forall3 (answered svc u) cats rpre ts → Forall3 framed cats ts bs →
  rpre `prefix_of` radii →
  HEASARC_get_lightcurves env src cats radii s
  = (Ok (length (accs s)), after_catalogs s u cats rpre ts bs).
Proof.
  intros Hans Hfr Hpre.
  pose proof (fetch_prefix env src s t u svc others cats [] rpre radii ts bs
                Hsrc Hupload Hreg Hans Hfr Hpre) as Hrun.
  rewrite app_nil_r in Hrun. rewrite Hrun. reflexivity.
Qed.

(** The catalogs [pre] are answered and framed, and no cutoff is left
    for the next catalog: the call raises [IndexError], having printed
    the name of that catalog. *)
Lemma fetch_index_error (pre post : list string) (c : string)
    (radii : list float) (ts : list Table) (bs : list (list LCRow)) :
  Forall3 (answered svc u) pre radii ts → Forall3 framed pre ts bs →
  HEASARC_get_lightcurves env src (pre ++ c :: post) radii s
  = (Raise IndexError,
     mkState (tables s ++ [u]) (accs s ++ [concat bs])
       (trace s ++ EvRegsearch "tap" ["heasarc"]
          :: loop_events u pre radii ts ++ [EvPrintMission c])).
Proof.
  intros Hans Hfr.
  rewrite (fetch_prefix env src s t u svc others pre (c :: post) radii radii ts bs)
    by done.
  cbn [length seq for_each]. rewrite !run_bind.
  erewrite (lightcurve_step_run svc _ _ _ _ u (length pre));
    [| apply store_lookup_new | apply store_lookup_new ].
  rewrite list_lookup_middle by done.
  rewrite (lookup_ge_None_2 radii (length pre))
    by (by rewrite (Forall3_length_lm _ _ _ _ Hans)).
  cbn [tables accs trace]. by rewrite <- app_assoc.
Qed.

(** The catalogs [pre] are answered and framed, and the query for the
    next catalog raises: the call raises the same exception. *)
Lemma fetch_query_raises (pre post : list string) (c : string)
    (rpre rpost : list float) (r : float) (ts : list Table)
    (bs : list (list LCRow)) (e : exn) :
  Forall3 (answered svc u) pre rpre ts → Forall3 framed pre ts bs →
  run_sync svc (hquery c r) [("mytable", u)] = Raise e →
  HEASARC_get_lightcurves env src (pre ++ c :: post) (rpre ++ r :: rpost) s
  = (Raise e,
     mkState (tables s ++ [u]) (accs s ++ [concat bs])
       (trace s ++ EvRegsearch "tap" ["heasarc"]
          :: loop_events u pre rpre ts
             ++ [EvPrintMission c; EvRunSync (hquery c r) [("mytable", u)]])).
Proof.
  intros Hans Hfr Hraise.
  rewrite (fetch_prefix env src s t u svc others pre (c :: post) rpre _ ts bs)
    by (done || by eexists).
  cbn [length seq for_each]. rewrite !run_bind.
  erewrite (lightcurve_step_run svc _ _ _ _ u (length pre));
    [| apply store_lookup_new | apply store_lookup_new ].
  rewrite list_lookup_middle by done.
  rewrite list_lookup_middle by (by rewrite (Forall3_length_lm _ _ _ _ Hans)).
  rewrite Hraise. cbn [tables accs trace]. by rewrite <- app_assoc.
Qed.
End runs.

(** A call whose first catalogs [pre] are answered and framed, however
    it goes on: one table and one accumulator are added, and the queries
    sent after those of [pre] are queries of the loop. *)
Lemma fetch_after_prefix (env : Registry) (src : loc) (s : state) (t u : Table)
    (svc : TapService) (others : list TapService)
    (pre post : list string) (rpre radii : list float)
    (ts : list Table) (bs : list (list LCRow)) :
  tables s !! src = Some t → upload_table_of t = Ok u →
  regsearch env "tap" ["heasarc"] = Ok (svc :: others) →
  Forall3 (answered svc u) pre rpre ts → Forall3 framed pre ts bs →
  rpre `prefix_of` radii →
  ∃ o rows evs,
    HEASARC_get_lightcurves env src (pre ++ post) radii s
    = (o, mkState (tables s ++ [u]) (accs s ++ [rows])
            (trace s ++ EvRegsearch "tap" ["heasarc"]
               :: loop_events u pre rpre ts ++ evs))
    ∧ Forall (query_ok (pre ++ post) radii u) (queries_of evs)
    ∧ (post = [] → evs = []).
Proof.
  intros Ht Hu Hreg Hans Hfr Hpre.
  rewrite (fetch_prefix env src s t u svc others pre post rpre radii ts bs) by done.
  destruct post as [|c post].
  { exists (Ok (length (accs s))), (concat bs), []. rewrite !app_nil_r.
    split_and!; [done | constructor | done]. }
  rewrite run_bind. set (s1 := mkState _ _ _).
  destruct (loop_inv svc (length (tables s)) (length (accs s)) (pre ++ c :: post)
              radii u (seq (length pre) (length (c :: post))) s1 (concat bs))
    as (o & bs' & evs & Hloop & _ & Hevs).
  { apply store_lookup_new. }
  { apply store_lookup_new. }
  rewrite Hloop. subst s1. cbn [tables accs trace].
  rewrite store_insert_new.
  exists (match o with Ok _ => Ok (length (accs s)) | Raise e => Raise e end),
    (concat bs ++ concat bs'), evs.
  split_and!; [| done | done].
  destruct o as [[]|e]; cbn [mret M_ret]; by rewrite <- app_assoc.
Qed.

(** A call whose first catalogs [pre] are answered and framed and whose
    next catalog has a cutoff: the query of that catalog is sent, whatever
    happens then. *)
Lemma fetch_reaches (env : Registry) (src : loc) (s : state) (t u : Table)
    (svc : TapService) (others : list TapService)
    (pre post : list string) (c : string)
    (rpre rpost : list float) (r : float)
    (ts : list Table) (bs : list (list LCRow)) :
  tables s !! src = Some t → upload_table_of t = Ok u →
  regsearch env "tap" ["heasarc"] = Ok (svc :: others) →
  Forall3 (answered svc u) pre rpre ts → Forall3 framed pre ts bs →
  ∃ o rows evs,
    HEASARC_get_lightcurves env src (pre ++ c :: post) (rpre ++ r :: rpost) s
    = (o, mkState (tables s ++ [u]) (accs s ++ [rows])
            (trace s ++ EvRegsearch "tap" ["heasarc"]
               :: loop_events u pre rpre ts
                  ++ EvPrintMission c :: EvRunSync (hquery c r) [("mytable", u)]
                  :: evs)).
Proof.
  intros Ht Hu Hreg Hans Hfr.
  rewrite (fetch_prefix env src s t u svc others pre (c :: post) rpre _ ts bs)
    by (done || by eexists).
  cbn [length seq for_each]. rewrite !run_bind.
  erewrite (lightcurve_step_run svc _ _ _ _ u (length pre));
    [| apply store_lookup_new | apply store_lookup_new ].
  rewrite list_lookup_middle by done.
  rewrite list_lookup_middle by (by rewrite (Forall3_length_lm _ _ _ _ Hans)).
  cbn [tables accs trace].
  destruct (run_sync svc _ _) as [t0|e].
  2: { exists (Raise e), (concat bs), []. by rewrite <- !app_assoc. }
  destruct (df_heasarc c t0) as [b|e].
  2: { exists (Raise e), (concat bs), [EvPrintLength c (table_len t0)].
       by rewrite <- !app_assoc. }
  rewrite store_insert_new.
  set (s1 := mkState _ _ _).
  destruct (loop_inv svc (length (tables s)) (length (accs s)) (pre ++ c :: post)
              (rpre ++ r :: rpost) u (seq (S (length pre)) (length post)) s1
              (concat bs ++ b))
    as (o & bs' & evs & Hloop & _ & _).
  { apply store_lookup_new. }
  { apply store_lookup_new. }
  rewrite Hloop. subst s1. cbn [tables accs trace].
  rewrite store_insert_new.
  exists (match o with Ok _ => Ok (length (accs s)) | Raise e => Raise e end),
    ((concat bs ++ b) ++ concat bs'), (EvPrintLength c (table_len t0) :: evs).
  destruct o as [[]|e]; cbn [mret M_ret]; by rewrite <- !app_assoc.
Qed.

Lemma queries_of_after (s : state) (u : Table) (cs : list string)
    (rs : list float) (ts : list Table) (bs : list (list LCRow))
    (P : string → float → Table → Prop) :
  Forall3 P cs rs ts →
  queries_of (trace (after_catalogs s u cs rs ts bs))
  = queries_of (trace s) ++ zip_with (sent u) cs rs.
Proof.
  intros H. unfold after_catalogs. cbn [trace]. rewrite queries_of_app. f_equal.
  exact (queries_of_loop_events u _ _ _ H).
Qed.

(** * The claims *)





(** C9: with an empty catalog list, whatever the cutoff list, the call
    sends no query, appends nothing and returns a new accumulator that
    holds no row; the registry search is the only call that leaves the
    process. *)
Theorem fetch_no_catalog (env : Registry) (src : loc) (s : state)
    (t u : Table) (svc : TapService) (others : list TapService)
    (radii : list float) :
  tables s !! src = Some t → upload_table_of t = Ok u →
  regsearch env "tap" ["heasarc"] = Ok (svc :: others) →
  ∃ s', HEASARC_get_lightcurves env src [] radii s = (Ok (length (accs s)), s')
        ∧ accs s' = accs s ++ [[]]
        ∧ trace s' = trace s ++ [EvRegsearch "tap" ["heasarc"]]
        ∧ queries_of (trace s') = queries_of (trace s).
Proof.
  intros Hsrc Hu Hreg. eexists. split_and!.
  - eapply (fetch_ok env src s t u svc others Hsrc Hu Hreg [] [] radii [] []).
    + constructor.
    + constructor.
    + by exists radii.
  - reflexivity.
  - reflexivity.
  - cbn. rewrite queries_of_app. cbn. by rewrite app_nil_r.
Qed.

Lemma fetch_no_catalog_witness :
  ∃ s', HEASARC_get_lightcurves Scenario.registry 0 [] [] Scenario.before = (Ok 1, s')
        ∧ accs s' = [[Scenario.survey_row]] ++ [[]]
        ∧ trace s' = [] ++ [EvRegsearch "tap" ["heasarc"]]
        ∧ queries_of (trace s') = [].
Proof.
  apply (fetch_no_catalog Scenario.registry 0 Scenario.before
           Scenario.source_table Scenario.upload_table Scenario.heasarc [] []);
    reflexivity.
Defined.

(** C3, as the code has it: when the catalogs before catalog [i] are all
    answered and framed and the query for catalog [i] raises, the call
    raises that same exception and returns nothing; the queries sent are
    those of the catalogs up to [i] and no other.  Nothing is rolled back:
    the frames of the catalogs before [i] are, and are all that is, in the
    accumulator the call made for itself, which is the one object the call
    has added to the store.  The accumulators that existed before the call
    are as they were; none of them has received a row. *)
Theorem fetch_remote_failure_keeps_rows (env : Registry) (src : loc) (s : state)
    (t u : Table) (svc : TapService) (others : list TapService)
    (pre post : list string) (c : string) (rpre rpost : list float) (r : float)
    (ts : list Table) (bs : list (list LCRow)) (e : exn) :
  tables s !! src = Some t → upload_table_of t = Ok u →
  regsearch env "tap" ["heasarc"] = Ok (svc :: others) →
  Forall3 (answered svc u) pre rpre ts → Forall3 framed pre ts bs →
  run_sync svc (hquery c r) [("mytable", u)] = Raise e →
  ∃ s', HEASARC_get_lightcurves env src (pre ++ c :: post) (rpre ++ r :: rpost) s
        = (Raise e, s')
        ∧ accs s' = accs s ++ [concat bs]
        ∧ queries_of (trace s')
          = queries_of (trace s) ++ zip_with (sent u) pre rpre ++ [sent u c r].
Proof.
  intros Hsrc Hu Hreg Hans Hfr Hraise. eexists. split_and!.
  - by eapply fetch_query_raises.
  - reflexivity.
  - cbn [trace]. rewrite queries_of_app. f_equal.
    change (queries_of (loop_events u pre rpre ts ++ [EvPrintMission c;
              EvRunSync (hquery c r) [("mytable", u)]])
            = zip_with (sent u) pre rpre ++ [sent u c r]).
    rewrite queries_of_app. f_equal. by eapply queries_of_loop_events.
Qed.

Lemma fetch_remote_failure_keeps_rows_witness :
  ∃ s', HEASARC_get_lightcurves Scenario.registry 0 (["CAT1"] ++ "CAT2" :: [])
          ([5%float] ++ 1%float :: []) Scenario.before
        = (Raise (RemoteFailure "unknown table"), s')
        ∧ accs s' = [[Scenario.survey_row]] ++ [concat [Scenario.cat1_rows]]
        ∧ queries_of (trace s')
          = [] ++ zip_with (sent Scenario.upload_table) ["CAT1"] [5%float]
               ++ [sent Scenario.upload_table "CAT2" 1%float].
Proof.
  apply (fetch_remote_failure_keeps_rows Scenario.registry 0 Scenario.before
           Scenario.source_table Scenario.upload_table Scenario.heasarc []
           ["CAT1"] [] "CAT2" [5%float] [] 1%float
           [Scenario.cat1_hits] [Scenario.cat1_rows]).
  - reflexivity.
  - reflexivity.
  - reflexivity.
  - repeat constructor.
  - repeat constructor.
  - reflexivity.
Defined.

(** C3 fails as stated.  CAT1 is answered with two rows and the query for
    CAT2 raises: the call raises, so it hands no accumulator to the caller,
    and no accumulator the caller had before the call holds the CAT1
    rows. *)
Lemma failed_call_hands_over_no_rows :
  ¬ ∃ a rows,
      (is_Some (accs Scenario.before !! a)
       ∨ (HEASARC_get_lightcurves Scenario.registry 0 ["CAT1"; "CAT2"]
            [5%float; 1%float] Scenario.before).1 = Ok a)
      ∧ accs (HEASARC_get_lightcurves Scenario.registry 0 ["CAT1"; "CAT2"]
                [5%float; 1%float] Scenario.before).2 !! a = Some rows
      ∧ Forall (λ row, row ∈ rows) Scenario.cat1_rows.
Proof.
  intros (a & rows & [Hheld|Hret] & Hrows & Hall).
  - destruct a as [|a]; [|by destruct Hheld].
    vm_compute in Hrows. injection Hrows as <-.
    apply Forall_cons in Hall as [Hin _].
    apply elem_of_cons in Hin as [Hin|Hin]; [discriminate Hin|].
    by apply elem_of_nil in Hin.
  - vm_compute in Hret. discriminate Hret.
Qed.

(** C6: a catalog whose query is answered with a table without rows adds
    no row to the accumulator and raises nothing; the catalogs after it
    are queried and framed as usual. *)
Theorem fetch_empty_result_continues (env : Registry) (src : loc) (s : state)
    (t u : Table) (svc : TapService) (others : list TapService)
    (pre post : list string) (c : string) (rpre rpost : list float) (r : float)
    (tpre tpost : list Table) (t0 : Table) (bpre bpost : list (list LCRow)) :
  tables s !! src = Some t → upload_table_of t = Ok u →
  regsearch env "tap" ["heasarc"] = Ok (svc :: others) →
  Forall3 (answered svc u) pre rpre tpre → Forall3 framed pre tpre bpre →
  answered svc u c r t0 → empty_result t0 →
  Forall3 (answered svc u) post rpost tpost → Forall3 framed post tpost bpost →
  ∃ s', HEASARC_get_lightcurves env src (pre ++ c :: post) (rpre ++ r :: rpost) s
        = (Ok (length (accs s)), s')
        ∧ accs s' = accs s ++ [concat bpre ++ concat bpost]
        ∧ queries_of (trace s')
          = queries_of (trace s)
            ++ zip_with (sent u) (pre ++ c :: post) (rpre ++ r :: rpost).
Proof.
  intros Hsrc Hu Hreg Hpre Hbpre Hc Hempty Hpost Hbpost.
  assert (Hans : Forall3 (answered svc u) (pre ++ c :: post) (rpre ++ r :: rpost)
                   (tpre ++ t0 :: tpost)).
  { apply Forall3_app; [done|]. by constructor. }
  assert (Hfr : Forall3 framed (pre ++ c :: post) (tpre ++ t0 :: tpost)
                  (bpre ++ [] :: bpost)).
  { apply Forall3_app; [done|]. constructor; [|done]. by apply df_heasarc_empty. }
  eexists. split_and!.
  - by eapply fetch_ok.
  - cbn [after_catalogs accs]. by rewrite concat_app.
  - by eapply queries_of_after.
Qed.

Lemma fetch_empty_result_continues_witness :
  ∃ s', HEASARC_get_lightcurves Scenario.registry 0 ([] ++ "CAT0" :: ["CAT1"])
          ([] ++ 1%float :: [5%float]) Scenario.before
        = (Ok 1, s')
        ∧ accs s' = [[Scenario.survey_row]] ++ [concat [] ++ concat [Scenario.cat1_rows]]
        ∧ queries_of (trace s')
          = [] ++ zip_with (sent Scenario.upload_table) ([] ++ "CAT0" :: ["CAT1"])
                    ([] ++ 1%float :: [5%float]).
Proof.
  apply (fetch_empty_result_continues Scenario.registry 0 Scenario.before
           Scenario.source_table Scenario.upload_table Scenario.heasarc []
           [] ["CAT1"] "CAT0" [] [5%float] 1%float
           [] [Scenario.cat1_hits] Scenario.no_hits [] [Scenario.cat1_rows]).
  - reflexivity.
  - reflexivity.
  - reflexivity.
  - constructor.
  - constructor.
  - reflexivity.
  - repeat split.
  - repeat constructor.
  - repeat constructor.
Defined.

(** C2, as the code has it: the two lengths are never compared.  The
    catalogs that do have a cutoff are queried and framed one after the
    other; then, if catalogs are left without a cutoff, the call raises
    [IndexError] at the first of them, and if only cutoffs are left, the
    call returns and the cutoffs left are never read. *)
Theorem fetch_length_mismatch (env : Registry) (src : loc) (s : state)
    (t u : Table) (svc : TapService) (others : list TapService)
    (pre post : list string) (rpre rpost : list float)
    (ts : list Table) (bs : list (list LCRow)) :
  tables s !! src = Some t → upload_table_of t = Ok u →
  regsearch env "tap" ["heasarc"] = Ok (svc :: others) →
  Forall3 (answered svc u) pre rpre ts → Forall3 framed pre ts bs →
  (post = [] ∧ rpost ≠ []) ∨ (post ≠ [] ∧ rpost = []) →
  length (pre ++ post) ≠ length (rpre ++ rpost)
  ∧ ∃ o s', HEASARC_get_lightcurves env src (pre ++ post) (rpre ++ rpost) s = (o, s')
            ∧ accs s' = accs s ++ [concat bs]
            ∧ queries_of (trace s')
              = queries_of (trace s) ++ zip_with (sent u) pre rpre
            ∧ (post = [] → o = Ok (length (accs s)))
            ∧ (post ≠ [] → o = Raise IndexError).
Proof.
  intros Hsrc Hu Hreg Hans Hfr Hcase.
  pose proof (Forall3_length_lm _ _ _ _ Hans) as Hlen. split.
  - rewrite !length_app, Hlen.
    destruct Hcase as [[-> Hr]|[Hp ->]].
    + destruct rpost; [done|]. simpl. lia.
    + destruct post; [done|]. simpl. lia.
  - destruct Hcase as [[-> Hr]|[Hp ->]].
    + rewrite app_nil_r. eexists _, _. split_and!.
      * eapply fetch_ok; [done.. | by eexists].
      * reflexivity.
      * by eapply queries_of_after.
      * done.
      * done.
    + destruct post as [|c post]; [done|]. rewrite app_nil_r.
      eexists _, _. split_and!.
      * by eapply fetch_index_error.
      * reflexivity.
      * cbn [trace]. rewrite queries_of_app. f_equal.
        change (queries_of (loop_events u pre rpre ts ++ [EvPrintMission c])
                = zip_with (sent u) pre rpre).
        rewrite queries_of_app, (queries_of_loop_events u _ _ _ Hans).
        apply app_nil_r.
      * done.
      * done.
Qed.

Lemma fetch_length_mismatch_witness :
  length (["CAT1"] ++ ["CAT0"]) ≠ length ([5%float] ++ [])
  ∧ ∃ o s', HEASARC_get_lightcurves Scenario.registry 0 (["CAT1"] ++ ["CAT0"])
              ([5%float] ++ []) Scenario.before = (o, s')
            ∧ accs s' = [[Scenario.survey_row]] ++ [concat [Scenario.cat1_rows]]
            ∧ queries_of (trace s')
              = [] ++ zip_with (sent Scenario.upload_table) ["CAT1"] [5%float]
            ∧ (["CAT0"] = [] → o = Ok 1)
            ∧ (["CAT0"] ≠ [] → o = Raise IndexError).
Proof.
  apply (fetch_length_mismatch Scenario.registry 0 Scenario.before
           Scenario.source_table Scenario.upload_table Scenario.heasarc []
           ["CAT1"] ["CAT0"] [5%float] []
           [Scenario.cat1_hits] [Scenario.cat1_rows]).
  - reflexivity.
  - reflexivity.
  - reflexivity.
  - repeat constructor.
  - repeat constructor.
  - right. split; [discriminate | reflexivity].
Defined.

(** C2 fails as stated.  With two catalogs and one cutoff, the call does
    raise, but only after the query for the first catalog has been sent;
    with one catalog and two cutoffs, it raises nothing at all. *)
Lemma length_mismatch_not_rejected_first :
  (length ["CAT1"; "CAT0"] ≠ length [5%float]
   ∧ ¬ ∃ e, (HEASARC_get_lightcurves Scenario.registry 0 ["CAT1"; "CAT0"]
               [5%float] Scenario.before).1 = Raise e
            ∧ queries_of (trace (HEASARC_get_lightcurves Scenario.registry 0
                 ["CAT1"; "CAT0"] [5%float] Scenario.before).2) = [])
  ∧ (length ["CAT1"] ≠ length [5%float; 1%float]
     ∧ ¬ ∃ e, (HEASARC_get_lightcurves Scenario.registry 0 ["CAT1"]
                 [5%float; 1%float] Scenario.before).1 = Raise e).
Proof.
  split; (split; [simpl; lia|]).
  - intros (e & _ & Hq). vm_compute in Hq. discriminate Hq.
  - intros (e & Ho). vm_compute in Ho. discriminate Ho.
Qed.

(** The loop over [n] indices from [k] on, however it ends: the catalogs
    it has worked through are an initial stretch of those from [k] on, each
    answered to the query with the cutoff of its index and framed, and
    their frames are what the accumulator has gained, in order; the loop
    returns exactly when it has worked through all [n]. *)
Lemma loop_frames (svc : TapService) (up a : loc) (cats : list string)
    (radii : list float) (u : Table) (n : nat) :
  ∀ (k : nat) (s : state) (d : list LCRow),
    tables s !! up = Some u → accs s !! a = Some d →
    ∃ o ts bs evs,
      for_each (seq k n) (lightcurve_step svc up a cats radii) s
      = (o, mkState (tables s) (<[a := d ++ concat bs]> (accs s)) (trace s ++ evs))
      ∧ Forall3 (answered svc u) (take (length bs) (drop k cats))
          (take (length bs) (drop k radii)) ts
      ∧ Forall3 framed (take (length bs) (drop k cats)) ts bs
      ∧ match o with
        | Ok _ => length bs = n
        | Raise _ => length bs < n
        end.
Proof.
  induction n as [|n IH]; intros k s d Hu Hd.
  - exists (Ok ()), [], [], []. simpl. rewrite !app_nil_r.
    rewrite list_insert_id by done.
    split_and!; [by destruct s | constructor | constructor | done].
  - cbn [seq for_each].
    rewrite run_bind, (lightcurve_step_run svc up a cats radii u k s d Hu Hd).
    assert (Hid : <[a := d ++ concat []]> (accs s) = accs s).
    { simpl. rewrite app_nil_r. by apply list_insert_id. }
    destruct (cats !! k) as [c|] eqn:Hc.
    2: { exists (Raise IndexError), [], [], []. rewrite Hid, app_nil_r.
         split_and!; [by destruct s | constructor | constructor | simpl; lia]. }
    destruct (radii !! k) as [r|] eqn:Hr.
    2: { eexists (Raise IndexError), [], [], _. rewrite Hid.
         split_and!; [done | constructor | constructor | simpl; lia]. }
    destruct (run_sync svc _ _) as [t|e] eqn:Ht.
    2: { eexists (Raise e), [], [], _. rewrite Hid.
         split_and!; [done | constructor | constructor | simpl; lia]. }
    destruct (df_heasarc c t) as [b|e] eqn:Hb.
    2: { eexists (Raise e), [], [], _. rewrite Hid.
         split_and!; [done | constructor | constructor | simpl; lia]. }
    set (s1 := mkState _ _ _).
    destruct (IH (S k) s1 (d ++ b)) as (o & ts & bs & evs & Hrun & Hans & Hfr & Hn).
    { done. }
    { simpl. apply list_lookup_insert_eq. by eapply lookup_lt_Some. }
    exists o, (t :: ts), (b :: bs), (step_events u c r t ++ evs).
    rewrite Hrun. subst s1. cbn [tables accs trace].
    rewrite list_insert_insert_eq, <- !app_assoc.
    rewrite (drop_S _ _ _ Hc), (drop_S _ _ _ Hr). cbn [length take concat].
    split_and!.
    + done.
    + by constructor.
    + by constructor.
    + destruct o; lia.
Qed.

(** C1, as the code has it: the function takes no accumulator.  However a
    call ends, the accumulators the store held before it are all still
    there, unchanged, and what the call has added comes after them.  A call
    whose projection of the source table raises has added none.  A call
    whose projection succeeds has added exactly one: it holds no row when
    the registry names no service, and otherwise holds, in order, the
    frames of the first catalogs of the list, each framed from what the
    first service of the registry answered to the query of that catalog
    with the cutoff of its index, and nothing else.  The call returns
    exactly when these are all the catalogs of the list, and then it
    returns that new accumulator. *)
Theorem fetch_fills_its_own_accumulator (env : Registry) (src : loc)
    (cats : list string) (radii : list float) (s : state) :
  ∃ o s' acc,
    HEASARC_get_lightcurves env src cats radii s = (o, s')
    ∧ accs s' = accs s ++ acc
    ∧ match tables s !! src with
      | None => acc = [] ∧ o = Raise Dangling
      | Some t =>
        match upload_table_of t with
        | Raise e => acc = [] ∧ o = Raise e
        | Ok u =>
          match regsearch env "tap" ["heasarc"] with
          | Raise e => acc = [[]] ∧ o = Raise e
          | Ok [] => acc = [[]] ∧ o = Raise IndexError
          | Ok (svc :: _) =>
              ∃ ts bs,
                acc = [concat bs]
                ∧ Forall3 (answered svc u) (take (length bs) cats)
                    (take (length bs) radii) ts
                ∧ Forall3 framed (take (length bs) cats) ts bs
                ∧ match o with
                  | Ok l => l = length (accs s) ∧ accs s !! l = None
                            ∧ length bs = length cats
                  | Raise _ => length bs < length cats
                  end
          end
        end
      end.
Proof.
  destruct (tables s !! src) as [t|] eqn:Ht.
  2: { exists (Raise Dangling), s, []. rewrite app_nil_r.
       split_and!; [|done..].
       unfold HEASARC_get_lightcurves, prepare_upload_table.
       rewrite !run_bind. unfold read_table at 1. by rewrite Ht. }
  destruct (upload_table_of t) as [u|e] eqn:Hu.
  2: { destruct (fetch_prelude_raises env src cats radii s t e Ht Hu) as [tbl ->].
       eexists _, _, []. by rewrite app_nil_r. }
  unfold HEASARC_get_lightcurves.
  destruct (prepare_upload_run src s) as (o1 & tbl & Hrun & _ & _ & Hok).
  destruct (Hok t u Ht Hu) as [-> ->].
  rewrite run_bind, Hrun.
  rewrite run_bind. unfold MultiIndexDFObject at 1. cbn [tables accs trace].
  rewrite run_bind. unfold pyvo_regsearch at 1. rewrite run_bind.
  unfold emit at 1, lift at 1. cbn [tables accs trace].
  destruct (regsearch env "tap" ["heasarc"]) as [[|svc others]|e].
  - by eexists _, _, [[]].
  - rewrite run_bind, list_getitem_head, run_bind.
    set (s2 := mkState _ _ _).
    destruct (loop_frames svc (length (tables s)) (length (accs s)) cats radii u
                (length cats) 0 s2 [])
      as (o & ts & bs & evs & Hloop & Hans & Hfr & Hn).
    { apply store_lookup_new. }
    { apply store_lookup_new. }
    rewrite Hloop. subst s2. cbn [tables accs trace].
    rewrite store_insert_new. cbn [app].
    destruct o as [[]|e].
    + eexists _, _, [concat bs]. split_and!; [done | done |].
      exists ts, bs. split_and!; [done | done | done | done | | done].
      by apply lookup_ge_None_2.
    + eexists _, _, [concat bs]. split_and!; [done | done |].
      by exists ts, bs.
  - by eexists _, _, [[]].
Qed.

(** C1 fails as stated.  The caller keeps an accumulator with one row of
    another survey; the accumulator the call returns does not hold that
    row. *)
Lemma returned_accumulator_lacks_callers_rows :
  ¬ ∀ l data,
      (HEASARC_get_lightcurves Scenario.registry 0 ["CAT1"] [5%float]
         Scenario.before).1 = Ok l →
      accs (HEASARC_get_lightcurves Scenario.registry 0 ["CAT1"] [5%float]
              Scenario.before).2 !! l = Some data →
      ∀ a held row, accs Scenario.before !! a = Some held → row ∈ held → row ∈ data.
Proof.
  intros H.
  specialize (H 1 Scenario.cat1_rows eq_refl eq_refl
                0 [Scenario.survey_row] Scenario.survey_row eq_refl).
  specialize (H (list_elem_of_here _ _)).
  unfold Scenario.cat1_rows, Scenario.survey_row in H.
  apply elem_of_cons in H as [H|H]; [discriminate H|].
  apply elem_of_cons in H as [H|H]; [discriminate H|].
  by apply elem_of_nil in H.
Qed.

(** ** The cutoff *)

Lemma float_ltb_irrefl (x : float) : (x <? x)%float = false.
Proof.
  rewrite FloatAxioms.ltb_spec. unfold SFltb.
  destruct (Prim2SF x) as [sg|sg| |sg m e]; simpl; try reflexivity.
  - by destruct sg.
  - rewrite Z.compare_refl, Pos.compare_refl. by destruct sg.
Qed.

Lemma float_eqb_not_ltb (x y : float) : (x =? y)%float = true → (x <? y)%float = false.
Proof.
  rewrite FloatAxioms.eqb_spec, FloatAxioms.ltb_spec. unfold SFeqb, SFltb.
  by destruct (SFcompare (Prim2SF x) (Prim2SF y)) as [[]|].
Qed.

Lemma hquery_where (contains : float * float → float * float * float → bool)
    (row : string → option float) (c : string) (r x : float) :
  row "cat.error_radius" = Some x →
  (x = r ∨ (x =? r)%float = true → where_holds contains row (hquery c r) = false)
  ∧ (where_holds contains row (hquery c r) = true → (x <? r)%float = true).
Proof.
  intros Hx. unfold where_holds. cbn [hquery q_where forallb cond_holds].
  rewrite Hx. split.
  - intros [->|Heq].
    + by rewrite float_ltb_irrefl.
    + by rewrite (float_eqb_not_ltb _ _ Heq).
  - by intros [? _]%andb_true_iff.
Qed.

(** C5: for every catalog index [i] the loop gets to (the catalogs
    before it answered and framed) and that has a cutoff, the query for
    [catalog_names[i]] is sent, right after the queries of the earlier
    catalogs, whatever happens afterwards; its WHERE clause compares
    [cat.error_radius] with [max_error_radii[i]] by [<]; and the comparison
    is strict: a row of the join whose [cat.error_radius] is the cutoff
    itself (the same number, or a number equal to it) is not among the rows
    the query keeps, and a row that is kept has an error radius below the
    cutoff. *)
Theorem queries_cut_strictly (env : Registry) (src : loc) (s : state)
    (t u : Table) (svc : TapService) (others : list TapService)
    (pre post : list string) (c : string)
    (rpre rpost : list float) (r : float)
    (ts : list Table) (bs : list (list LCRow)) :
  tables s !! src = Some t → upload_table_of t = Ok u →
  regsearch env "tap" ["heasarc"] = Ok (svc :: others) →
  Forall3 (answered svc u) pre rpre ts → Forall3 framed pre ts bs →
  ∃ o s' later,
    HEASARC_get_lightcurves env src (pre ++ c :: post) (rpre ++ r :: rpost) s
    = (o, s')
    ∧ queries_of (trace s')
      = queries_of (trace s) ++ zip_with (sent u) pre rpre
        ++ (hquery c r, [("mytable", u)]) :: later
    ∧ q_where (hquery c r)
      = [CLt "cat.error_radius" r;
         CContains ("ICRS", "mt.ra", "mt.dec")
                   ("ICRS", "cat.ra", "cat.dec", "cat.error_radius")]
    ∧ ∀ contains row x,
        row "cat.error_radius" = Some x →
        (x = r ∨ (x =? r)%float = true →
           where_holds contains row (hquery c r) = false
           ∧ ∀ rows, row ∉ select_rows contains (hquery c r) rows)
        ∧ (where_holds contains row (hquery c r) = true → (x <? r)%float = true).
Proof.
  intros Ht Hu Hreg Hans Hfr.
  destruct (fetch_reaches env src s t u svc others pre post c rpre rpost r ts bs
              Ht Hu Hreg Hans Hfr) as (o & held & evs & ->).
  eexists o, _, (queries_of evs). split_and!; [done | | done |].
  - cbn [trace]. rewrite queries_of_app. f_equal.
    change (queries_of (loop_events u pre rpre ts
              ++ EvPrintMission c :: EvRunSync (hquery c r) [("mytable", u)] :: evs)
            = zip_with (sent u) pre rpre
              ++ (hquery c r, [("mytable", u)]) :: queries_of evs).
    rewrite queries_of_app. f_equal. by eapply queries_of_loop_events.
  - intros contains row x Hx.
    destruct (hquery_where contains row c r x Hx) as [Hdrop Hkeep].
    split; [|done]. intros Heq. specialize (Hdrop Heq). split; [done|].
    intros rows [Hkept _]%list_elem_of_filter. congruence.
Qed.

Lemma queries_cut_strictly_witness :
  ∃ o s' later,
    HEASARC_get_lightcurves Scenario.registry 0 (["CAT1"] ++ "CAT0" :: ["CAT2"])
      ([5%float] ++ 1%float :: [2%float]) Scenario.before = (o, s')
    ∧ queries_of (trace s')
      = [] ++ zip_with (sent Scenario.upload_table) ["CAT1"] [5%float]
        ++ (hquery "CAT0" 1%float, [("mytable", Scenario.upload_table)]) :: later
    ∧ q_where (hquery "CAT0" 1%float)
      = [CLt "cat.error_radius" 1%float;
         CContains ("ICRS", "mt.ra", "mt.dec")
                   ("ICRS", "cat.ra", "cat.dec", "cat.error_radius")]
    ∧ ∀ contains row x,
        row "cat.error_radius" = Some x →
        (x = 1%float ∨ (x =? 1)%float = true →
           where_holds contains row (hquery "CAT0" 1%float) = false
           ∧ ∀ rows, row ∉ select_rows contains (hquery "CAT0" 1%float) rows)
        ∧ (where_holds contains row (hquery "CAT0" 1%float) = true
           → (x <? 1)%float = true).
Proof.
  apply (queries_cut_strictly Scenario.registry 0 Scenario.before
           Scenario.source_table Scenario.upload_table Scenario.heasarc []
           ["CAT1"] ["CAT2"] "CAT0" [5%float] [2%float] 1%float
           [Scenario.cat1_hits] [Scenario.cat1_rows]).
  - reflexivity.
  - reflexivity.
  - reflexivity.
  - repeat constructor.
  - repeat constructor.
Defined.

(** ** The inspector *)

(** C7: when the registry names a service, the service answers the
    sample query with a table that has an [error_radius] column and
    [plt.hist] draws that column, [make_hist_error_radii] sends one query,
    which selects the top 5000 rows of the four columns from the catalog
    and has no WHERE clause, and returns the very table the service
    answered; the histogram is asked for the whole [error_radius] column of
    that table, with 30 bins over [0, 10], and the store is left as it
    was. *)
Theorem make_hist_returns_result (env : Registry) (plt : Pyplot)
    (missioncat : string) (s : state)
    (svc : TapService) (others : list TapService) (t : Table) (radii : column) :
  regsearch env "tap" ["heasarc"] = Ok (svc :: others) →
  run_sync svc (heasarcquery missioncat) [] = Ok t →
  column_of t "error_radius" = Ok radii →
  hist plt radii 30 (0, 10)%Z = Ok () →
  make_hist_error_radii env plt missioncat s
  = (Ok t, mkState (tables s) (accs s)
             (trace s ++ [EvRegsearch "tap" ["heasarc"];
                          EvRunSync (heasarcquery missioncat) [];
                          EvHist radii 30 (0, 10)%Z]))
  ∧ heasarcquery missioncat
    = mkQuery (Some 5000) ["cat.name"; "cat.ra"; "cat.dec"; "cat.error_radius"]
        [(missioncat, "cat")] [].
Proof.
  intros Hreg Hrun Hcol Hhist. split; [|reflexivity].
  unfold make_hist_error_radii.
  rewrite run_bind. unfold pyvo_regsearch at 1. rewrite run_bind.
  unfold emit at 1, lift at 1. cbn [tables accs trace]. rewrite Hreg.
  rewrite run_bind, list_getitem_head.
  rewrite run_bind. unfold tap_run_sync at 1. rewrite run_bind.
  unfold emit at 1, lift at 1. cbn [tables accs trace]. rewrite Hrun.
  rewrite run_bind. unfold lift at 1. rewrite Hcol.
  rewrite run_bind. unfold pyplot_hist at 1. rewrite run_bind.
  unfold emit at 1, lift at 1. cbn [tables accs trace mret M_ret]. rewrite Hhist.
  by rewrite <- !app_assoc.
Qed.

Lemma make_hist_returns_result_witness :
  make_hist_error_radii Scenario.registry Scenario.pyplot "CAT1" Scenario.before
  = (Ok Scenario.sample,
     mkState [Scenario.source_table] [[Scenario.survey_row]]
       ([] ++ [EvRegsearch "tap" ["heasarc"];
               EvRunSync (heasarcquery "CAT1") [];
               EvHist [VFloat 1.5; VFloat 25] 30 (0, 10)%Z]))
  ∧ heasarcquery "CAT1"
    = mkQuery (Some 5000) ["cat.name"; "cat.ra"; "cat.dec"; "cat.error_radius"]
        [("CAT1", "cat")] [].
Proof.
  apply (make_hist_returns_result Scenario.registry Scenario.pyplot "CAT1"
           Scenario.before Scenario.heasarc [] Scenario.sample
           [VFloat 1.5; VFloat 25]);
    reflexivity.
Defined.

(** ** The two tables *)

(** C8: in a call that gets to the loop, whose first catalogs [pre] are
    answered and framed, exactly one table has been added to the store when
    the call ends, however it ends and however many catalogs the list has:
    the projection of the source table as it was when the call began, made
    before the loop, and it is unchanged at the end.  Every one of these
    catalogs has had its query sent with the content of that table uploaded
    under the name [mytable], and so has every query sent after them: all
    the queries of the call upload the same table. *)
Theorem upload_table_is_fixed (env : Registry) (src : loc) (s : state)
    (t u : Table) (svc : TapService) (others : list TapService)
    (pre post : list string) (rpre radii : list float)
    (ts : list Table) (bs : list (list LCRow)) :
  tables s !! src = Some t → upload_table_of t = Ok u →
  regsearch env "tap" ["heasarc"] = Ok (svc :: others) →
  Forall3 (answered svc u) pre rpre ts → Forall3 framed pre ts bs →
  rpre `prefix_of` radii →
  ∃ o s' later,
    HEASARC_get_lightcurves env src (pre ++ post) radii s = (o, s')
    ∧ tables s' = tables s ++ [u]
    ∧ queries_of (trace s')
      = queries_of (trace s) ++ zip_with (sent u) pre rpre ++ later
    ∧ length (zip_with (sent u) pre rpre) = length pre
    ∧ Forall (λ qu, qu.2 = [("mytable", u)]) (zip_with (sent u) pre rpre ++ later)
    ∧ (post = [] → later = []).
Proof.
  intros Ht Hu Hreg Hans Hfr Hpre.
  destruct (fetch_after_prefix env src s t u svc others pre post rpre radii ts bs
              Ht Hu Hreg Hans Hfr Hpre) as (o & rows & evs & -> & Hevs & Hlast).
  eexists o, _, (queries_of evs). split_and!; [done | done | | | |].
  - cbn [trace]. rewrite queries_of_app. f_equal.
    change (queries_of (loop_events u pre rpre ts ++ evs)
            = zip_with (sent u) pre rpre ++ queries_of evs).
    rewrite queries_of_app. f_equal. by eapply queries_of_loop_events.
  - apply length_zip_with_l_eq. by eapply Forall3_length_lm.
  - apply Forall_app. split.
    + apply Forall_forall. intros qu Hin.
      apply list_elem_of_lookup in Hin as [i Hi].
      apply lookup_zip_with_Some in Hi as (c & r & -> & _ & _). done.
    + eapply Forall_impl; [exact Hevs|].
      by intros qu (i & c & r & _ & _ & ->).
  - intros Hpost. by rewrite (Hlast Hpost).
Qed.

Lemma upload_table_is_fixed_witness :
  ∃ o s' later,
    HEASARC_get_lightcurves Scenario.registry 0 (["CAT1"; "CAT0"] ++ ["CAT1"; "CAT2"])
      [5%float; 1%float; 2%float; 3%float] Scenario.before = (o, s')
    ∧ tables s' = [Scenario.source_table] ++ [Scenario.upload_table]
    ∧ queries_of (trace s')
      = [] ++ zip_with (sent Scenario.upload_table) ["CAT1"; "CAT0"]
                [5%float; 1%float] ++ later
    ∧ length (zip_with (sent Scenario.upload_table) ["CAT1"; "CAT0"]
                [5%float; 1%float]) = 2
    ∧ Forall (λ qu, qu.2 = [("mytable", Scenario.upload_table)])
        (zip_with (sent Scenario.upload_table) ["CAT1"; "CAT0"] [5%float; 1%float]
         ++ later)
    ∧ (["CAT1"; "CAT2"] = [] → later = []).
Proof.
  apply (upload_table_is_fixed Scenario.registry 0 Scenario.before
           Scenario.source_table Scenario.upload_table Scenario.heasarc []
           ["CAT1"; "CAT0"] ["CAT1"; "CAT2"] [5%float; 1%float]
           [5%float; 1%float; 2%float; 3%float]
           [Scenario.cat1_hits; Scenario.no_hits] [Scenario.cat1_rows; []]).
  - reflexivity.
  - reflexivity.
  - reflexivity.
  - repeat constructor.
  - repeat constructor.
  - by exists [2%float; 3%float].
Defined.

(** C10: whatever the call does and however it ends, the source table is
    afterwards what it was before: the store has kept every table it held,
    and the one table the call may have added, the projection that receives
    the [ra] and [dec] columns, is another object. *)
Theorem source_table_is_untouched (env : Registry) (src : loc)
    (cats : list string) (radii : list float) (s : state) (t : Table) :
  tables s !! src = Some t →
  tables (HEASARC_get_lightcurves env src cats radii s).2 !! src = Some t
  ∧ ∃ tbl,
      tables (HEASARC_get_lightcurves env src cats radii s).2 = tables s ++ tbl
      ∧ length tbl ≤ 1
      ∧ src < length (tables s).
Proof.
  intros Ht.
  destruct (fetch_inv env src cats radii s)
    as (o & tbl & acc & evs & -> & Htbl & _).
  cbn [snd tables]. split.
  - by apply lookup_app_l_Some.
  - exists tbl. split_and!; [done | done |]. by eapply lookup_lt_Some.
Qed.

Lemma source_table_is_untouched_witness :
  tables (HEASARC_get_lightcurves Scenario.registry 0 ["CAT1"] [5%float]
            Scenario.before).2 !! 0 = Some Scenario.source_table
  ∧ ∃ tbl,
      tables (HEASARC_get_lightcurves Scenario.registry 0 ["CAT1"] [5%float]
                Scenario.before).2 = [Scenario.source_table] ++ tbl
      ∧ length tbl ≤ 1
      ∧ 0 < length [Scenario.source_table].
Proof.
  apply (source_table_is_untouched Scenario.registry 0 ["CAT1"] [5%float]
           Scenario.before Scenario.source_table).
  reflexivity.
Defined.

(** * Beyond the claims

    Edge cases and invariants of the two functions, read off the source. *)

(** ** Columns *)

Lemma column_of_missing (t : Table) (name : string) :
  has_column t name = false → column_of t name = Raise (KeyError name).
Proof.
  induction t as [|[n c] t IH]; [done|].
  cbn [has_column existsb fst column_of]. destruct (String.eqb n name); [done|].
  exact IH.
Qed.

Lemma column_of_present (t : Table) (name : string) :
  has_column t name = true → ∃ c, column_of t name = Ok c.
Proof.
  induction t as [|[n c] t IH]; [done|].
  cbn [has_column existsb fst column_of]. destruct (String.eqb n name); [by exists c|].
  exact IH.
Qed.

Lemma upload_table_of_missing (t : Table) (name : string) :
  first_lacking ["object_id"; "label"; "coord"] t = Some name →
  upload_table_of t = Raise (KeyError name).
Proof.
  unfold upload_table_of, first_lacking, columns_of. cbn [find].
  destruct (has_column t "object_id") eqn:Hid; cbn [negb].
  2: { intros [= <-]. by rewrite (column_of_missing _ _ Hid). }
  destruct (column_of_present _ _ Hid) as [ids ->].
  destruct (has_column t "label") eqn:Hlabel; cbn [negb].
  2: { intros [= <-]. by rewrite (column_of_missing _ _ Hlabel). }
  destruct (column_of_present _ _ Hlabel) as [labels ->].
  destruct (has_column t "coord") eqn:Hcoord; cbn [negb]; [done|].
  intros [= <-]. cbn [mbind outcome_bind]. by rewrite (column_of_missing _ _ Hcoord).
Qed.

(** X2: a source table that lacks one of the columns [object_id], [label]
    and [coord] makes the call raise [KeyError] with the name of the first
    of them that is missing, before the registry is searched: nothing has
    been printed or sent, and no accumulator has been made. *)
Theorem missing_column_raises_before_network (env : Registry) (src : loc)
    (cats : list string) (radii : list float) (s : state) (t : Table)
    (name : string) :
  tables s !! src = Some t →
  first_lacking ["object_id"; "label"; "coord"] t = Some name →
  ∃ s', HEASARC_get_lightcurves env src cats radii s = (Raise (KeyError name), s')
        ∧ trace s' = trace s
        ∧ accs s' = accs s.
Proof.
  intros Ht Hmiss.
  destruct (fetch_prelude_raises env src cats radii s t _ Ht
              (upload_table_of_missing t name Hmiss)) as [tbl ->].
  by eexists.
Qed.

Lemma missing_column_raises_before_network_witness :
  ∃ s', HEASARC_get_lightcurves Scenario.registry 0 ["CAT1"] [5%float] Faults.before
        = (Raise (KeyError "label"), s')
        ∧ trace s' = []
        ∧ accs s' = [].
Proof.
  apply (missing_column_raises_before_network Scenario.registry 0 ["CAT1"]
           [5%float] Faults.before Faults.unlabelled_table "label"); reflexivity.
Defined.

(** ** The upload table *)

Lemma ra_deg_of_skycoord (pts : list (float * float)) :
  map_outcome ra_deg_of (skycoord pts) = Ok (map (λ p, VFloat p.1) pts).
Proof. induction pts as [|p pts IH]; [done|]. cbn. unfold skycoord in IH. by rewrite IH. Qed.

Lemma dec_deg_of_skycoord (pts : list (float * float)) :
  map_outcome dec_deg_of (skycoord pts) = Ok (map (λ p, VFloat p.2) pts).
Proof. induction pts as [|p pts IH]; [done|]. cbn. unfold skycoord in IH. by rewrite IH. Qed.

Lemma upload_table_of_wellformed (t : Table) (ids labels : column)
    (pts : list (float * float)) :
  column_of t "object_id" = Ok ids → column_of t "label" = Ok labels →
  column_of t "coord" = Ok (skycoord pts) → length ids = length pts →
  upload_table_of t
  = Ok [("object_id", ids); ("label", labels);
        ("ra", map (λ p, VFloat p.1) pts); ("dec", map (λ p, VFloat p.2) pts)].
Proof.
  intros Hid Hlabel Hcoord Hlen. unfold upload_table_of, columns_of.
  rewrite Hid, Hlabel, Hcoord. cbn [mbind outcome_bind].
  rewrite ra_deg_of_skycoord, dec_deg_of_skycoord. cbn [mbind outcome_bind].
  unfold set_column at 2. cbn [table_len]. rewrite length_map, Hlen, Nat.eqb_refl.
  cbn [negb has_column existsb fst String.eqb Ascii.eqb Bool.eqb orb app
       mbind outcome_bind].
  unfold set_column. cbn [table_len]. rewrite length_map, Hlen, Nat.eqb_refl.
  reflexivity.
Qed.

(** X1: for a source table that has the columns [object_id], [label] and
    a [SkyCoord] column [coord] of the same length, the table uploaded with
    every query of a run holds exactly four columns, in this order: the
    identifiers, the labels, the right ascensions and the declinations in
    degrees.  No other column of the source table is sent. *)
Theorem upload_carries_four_columns (env : Registry) (src : loc)
    (cats : list string) (radii : list float) (s : state) (t : Table)
    (ids labels : column) (pts : list (float * float)) :
  tables s !! src = Some t →
  column_of t "object_id" = Ok ids → column_of t "label" = Ok labels →
  column_of t "coord" = Ok (skycoord pts) → length ids = length pts →
  ∃ evs,
    trace (HEASARC_get_lightcurves env src cats radii s).2 = trace s ++ evs
    ∧ Forall (λ qu, qu.2 = [("mytable",
                 [("object_id", ids); ("label", labels);
                  ("ra", map (λ p, VFloat p.1) pts);
                  ("dec", map (λ p, VFloat p.2) pts)])])
        (queries_of evs).
Proof.
  intros Ht Hid Hlabel Hcoord Hlen.
  pose proof (upload_table_of_wellformed t ids labels pts Hid Hlabel Hcoord Hlen) as HU.
  destruct (fetch_inv env src cats radii s)
    as (o & tbl & acc & evs & -> & _ & _ & Hq & _).
  exists evs. split; [done|].
  eapply Forall_impl; [exact Hq|].
  intros qu (t' & u & Ht' & Hu & _ & i & c & r & _ & _ & ->).
  rewrite Ht in Ht'. injection Ht' as <-. rewrite HU in Hu. by injection Hu as <-.
Qed.

Lemma upload_carries_four_columns_witness :
  ∃ evs,
    trace (HEASARC_get_lightcurves Scenario.registry 0 ["CAT1"; "CAT0"]
             [5%float; 1%float] Scenario.before).2 = [] ++ evs
    ∧ Forall (λ qu, qu.2 = [("mytable",
                 [("object_id", [VInt 1; VInt 2]); ("label", [VStr "A"; VStr "A"]);
                  ("ra", map (λ p, VFloat p.1)
                           [(150.25%float, 2.5%float); (10%float, 45.5%float)]);
                  ("dec", map (λ p, VFloat p.2)
                            [(150.25%float, 2.5%float); (10%float, 45.5%float)])])])
        (queries_of evs).
Proof.
  apply (upload_carries_four_columns Scenario.registry 0 ["CAT1"; "CAT0"]
           [5%float; 1%float] Scenario.before Scenario.source_table
           [VInt 1; VInt 2] [VStr "A"; VStr "A"]
           [(150.25%float, 2.5%float); (10%float, 45.5%float)]); reflexivity.
Defined.

(** ** The frame of one result table *)

Lemma frame_rows_columns (n : nat) (flux err : list float) (time object_id : column)
    (band : list string) (label : column) :
  length flux = n → length err = n → length time = n → length object_id = n →
  length band = n → length label = n →
  lc_time <$> frame_rows flux err time object_id band label = time
  ∧ lc_object_id <$> frame_rows flux err time object_id band label = object_id
  ∧ lc_label <$> frame_rows flux err time object_id band label = label.
Proof.
  revert flux err time object_id band label.
  induction n as [|n IH]; intros flux err time object_id band label;
    destruct flux, err, time, object_id, band, label; try discriminate; try done.
  intros [=] [=] [=] [=] [=] [=]. cbn [frame_rows fmap list_fmap lc_time lc_object_id lc_label].
  destruct (IH flux err time object_id band label) as (-> & -> & ->); done.
Qed.

Lemma df_heasarc_missing (c : string) (t : Table) (name : string) :
  first_lacking ["time"; "object_id"; "label"] t = Some name →
  df_heasarc c t = Raise (KeyError name).
Proof.
  unfold df_heasarc, first_lacking. cbn [find].
  destruct (has_column t "time") eqn:Htime; cbn [negb].
  2: { intros [= <-]. by rewrite (column_of_missing _ _ Htime). }
  destruct (column_of_present _ _ Htime) as [time ->].
  destruct (has_column t "object_id") eqn:Hid; cbn [negb].
  2: { intros [= <-]. by rewrite (column_of_missing _ _ Hid). }
  destruct (column_of_present _ _ Hid) as [ids ->].
  destruct (has_column t "label") eqn:Hlabel; cbn [negb]; [done|].
  intros [= <-]. by rewrite (column_of_missing _ _ Hlabel).
Qed.

(** X4: the frame built from a result table has one row per row of the
    table, and its [time], [object_id] and [label] are, row by row, the
    cells of the columns of these names: nothing is reordered, dropped or
    converted. *)
Theorem frame_copies_result_columns (c : string) (t : Table) (b : list LCRow) :
  df_heasarc c t = Ok b →
  length b = table_len t
  ∧ column_of t "time" = Ok (lc_time <$> b)
  ∧ column_of t "object_id" = Ok (lc_object_id <$> b)
  ∧ column_of t "label" = Ok (lc_label <$> b).
Proof.
  intros Hdf. split; [by apply (df_heasarc_rows c)|].
  revert Hdf. unfold df_heasarc.
  destruct (column_of t "time") as [time|]; [|done].
  destruct (column_of t "object_id") as [object_id|]; [|done].
  destruct (column_of t "label") as [label|]; [|done].
  cbn [mbind outcome_bind]. unfold DataFrame.
  destruct (forallb _ _) eqn:Hlen; [|done].
  intros [= <-].
  cbn [forallb] in Hlen. rewrite !length_replicate in Hlen.
  rewrite !andb_true_iff, !Nat.eqb_eq in Hlen.
  destruct Hlen as (_ & Htime & Hid & _ & Hlabel & _).
  destruct (frame_rows_columns (table_len t)
              (replicate (table_len t) 0.1%float) (replicate (table_len t) 0.1%float)
              time object_id (replicate (table_len t) (np_str c)) label)
    as (-> & -> & ->); rewrite ?length_replicate; done.
Qed.

Lemma frame_copies_result_columns_witness :
  length Scenario.cat1_rows = table_len Scenario.cat1_hits
  ∧ column_of Scenario.cat1_hits "time" = Ok (lc_time <$> Scenario.cat1_rows)
  ∧ column_of Scenario.cat1_hits "object_id" = Ok (lc_object_id <$> Scenario.cat1_rows)
  ∧ column_of Scenario.cat1_hits "label" = Ok (lc_label <$> Scenario.cat1_rows).
Proof.
  apply (frame_copies_result_columns "CAT1" Scenario.cat1_hits Scenario.cat1_rows).
  reflexivity.
Defined.

(** X5: a result table makes a frame exactly when it has the columns
    [time], [object_id] and [label] and each of them has as many cells as
    the table has rows; this holds for a table without rows as well, which
    still needs the three columns. *)
Theorem frame_exists_iff_columns (c : string) (t : Table) :
  (∃ b, df_heasarc c t = Ok b)
  ↔ ∃ time object_id label,
      column_of t "time" = Ok time ∧ column_of t "object_id" = Ok object_id
      ∧ column_of t "label" = Ok label
      ∧ length time = table_len t ∧ length object_id = table_len t
      ∧ length label = table_len t.
Proof.
  split.
  - intros [b Hdf].
    destruct (df_heasarc_rows c t b Hdf) as [Hlen _].
    revert Hdf. unfold df_heasarc.
    destruct (column_of t "time") as [time|]; [|done].
    destruct (column_of t "object_id") as [object_id|]; [|done].
    destruct (column_of t "label") as [label|]; [|done].
    cbn [mbind outcome_bind]. unfold DataFrame.
    destruct (forallb _ _) eqn:Hall; [|done]. intros _.
    cbn [forallb] in Hall. rewrite !length_replicate in Hall.
    rewrite !andb_true_iff, !Nat.eqb_eq in Hall.
    destruct Hall as (_ & Htime & Hid & _ & Hlabel & _).
    by exists time, object_id, label.
  - intros (time & object_id & label & Htime & Hid & Hlabel & H1 & H2 & H3).
    unfold df_heasarc. rewrite Htime, Hid, Hlabel. cbn [mbind outcome_bind].
    unfold DataFrame. cbn [forallb]. rewrite !length_replicate, H1, H2, H3.
    rewrite !Nat.eqb_refl. by eexists.
Qed.

(** ** More ways a call can go *)

(** X3: when the registry search raises, or finds no service at all, the
    call raises (the exception of the search, or [IndexError] for the
    empty list) without sending any query.  The accumulator of line 88 has
    been made by then, holds no row and is not returned. *)
Theorem no_service_no_query (env : Registry) (src : loc) (cats : list string)
    (radii : list float) (s : state) (t u : Table) :
  tables s !! src = Some t → upload_table_of t = Ok u →
  (∀ svc others, regsearch env "tap" ["heasarc"] ≠ Ok (svc :: others)) →
  ∃ s', HEASARC_get_lightcurves env src cats radii s
        = (Raise match regsearch env "tap" ["heasarc"] with
                 | Raise e => e
                 | Ok _ => IndexError
                 end, s')
        ∧ trace s' = trace s ++ [EvRegsearch "tap" ["heasarc"]]
        ∧ accs s' = accs s ++ [[]].
Proof.
  intros Ht Hu Hnone. unfold HEASARC_get_lightcurves.
  destruct (prepare_upload_run src s) as (o1 & tbl & Hrun & _ & _ & Hok).
  destruct (Hok t u Ht Hu) as [-> ->].
  rewrite run_bind, Hrun.
  rewrite run_bind. unfold MultiIndexDFObject at 1. cbn [tables accs trace].
  rewrite run_bind. unfold pyvo_regsearch at 1. rewrite run_bind.
  unfold emit at 1, lift at 1. cbn [tables accs trace].
  destruct (regsearch env "tap" ["heasarc"]) as [[|svc others]|e] eqn:Hreg.
  - by eexists.
  - by destruct (Hnone svc others).
  - by eexists.
Qed.

Lemma no_service_no_query_witness :
  ∃ s', HEASARC_get_lightcurves Faults.empty_registry 0 ["CAT1"] [5%float]
          Scenario.before = (Raise IndexError, s')
        ∧ trace s' = [] ++ [EvRegsearch "tap" ["heasarc"]]
        ∧ accs s' = [[Scenario.survey_row]] ++ [[]].
Proof.
  apply (no_service_no_query Faults.empty_registry 0 ["CAT1"] [5%float]
           Scenario.before Scenario.source_table Scenario.upload_table).
  - reflexivity.
  - reflexivity.
  - intros svc others. discriminate.
Defined.

(** The catalogs [pre] are answered and framed, and the answer for the
    next catalog makes no frame: the call raises what the frame raises. *)
Lemma fetch_frame_raises (env : Registry) (src : loc) (s : state) (t u : Table)
    (svc : TapService) (others : list TapService)
    (pre post : list string) (c : string)
    (rpre rpost : list float) (r : float) (ts : list Table) (t0 : Table)
    (bs : list (list LCRow)) (e : exn) :
  tables s !! src = Some t → upload_table_of t = Ok u →
  regsearch env "tap" ["heasarc"] = Ok (svc :: others) →
  Forall3 (answered svc u) pre rpre ts → Forall3 framed pre ts bs →
  answered svc u c r t0 → df_heasarc c t0 = Raise e →
  HEASARC_get_lightcurves env src (pre ++ c :: post) (rpre ++ r :: rpost) s
  = (Raise e,
     mkState (tables s ++ [u]) (accs s ++ [concat bs])
       (trace s ++ EvRegsearch "tap" ["heasarc"]
          :: loop_events u pre rpre ts ++ step_events u c r t0)).
Proof.
  intros Ht Hu Hreg Hans Hfr Hc Hraise.
  rewrite (fetch_prefix env src s t u svc others pre (c :: post) rpre _ ts bs)
    by (done || by eexists).
  cbn [length seq for_each]. rewrite !run_bind.
  erewrite (lightcurve_step_run svc _ _ _ _ u (length pre));
    [| apply store_lookup_new | apply store_lookup_new ].
  rewrite list_lookup_middle by done.
  rewrite list_lookup_middle by (by rewrite (Forall3_length_lm _ _ _ _ Hans)).
  unfold answered in Hc. rewrite Hc, Hraise.
  cbn [tables accs trace]. by rewrite <- app_assoc.
Qed.

(** X6: when the catalogs before catalog [i] are answered and framed and
    the answer for catalog [i] lacks one of the columns [time],
    [object_id] and [label], the call raises [KeyError] with the name of the
    first of them that is missing.  The query for catalog [i] has been sent
    and no later one; the frames of the earlier catalogs are in the
    accumulator the call was filling. *)
Theorem result_without_column_raises (env : Registry) (src : loc) (s : state)
    (t u : Table) (svc : TapService) (others : list TapService)
    (pre post : list string) (c : string)
    (rpre rpost : list float) (r : float) (ts : list Table) (t0 : Table)
    (bs : list (list LCRow)) (name : string) :
  tables s !! src = Some t → upload_table_of t = Ok u →
  regsearch env "tap" ["heasarc"] = Ok (svc :: others) →
  Forall3 (answered svc u) pre rpre ts → Forall3 framed pre ts bs →
  answered svc u c r t0 →
  first_lacking ["time"; "object_id"; "label"] t0 = Some name →
  ∃ s', HEASARC_get_lightcurves env src (pre ++ c :: post) (rpre ++ r :: rpost) s
        = (Raise (KeyError name), s')
        ∧ accs s' = accs s ++ [concat bs]
        ∧ queries_of (trace s')
          = queries_of (trace s) ++ zip_with (sent u) pre rpre ++ [sent u c r].
Proof.
  intros Ht Hu Hreg Hans Hfr Hc Hlack. eexists. split_and!.
  - eapply fetch_frame_raises; [done.. |]. by apply df_heasarc_missing.
  - reflexivity.
  - cbn [trace]. rewrite queries_of_app. f_equal.
    change (queries_of (loop_events u pre rpre ts ++ step_events u c r t0)
            = zip_with (sent u) pre rpre ++ [sent u c r]).
    rewrite queries_of_app. f_equal. by eapply queries_of_loop_events.
Qed.

Lemma result_without_column_raises_witness :
  ∃ s', HEASARC_get_lightcurves Faults.careless_registry 0
          (["CAT1"] ++ "CAT2" :: ["CAT1"]) ([5%float] ++ 1%float :: [5%float])
          Scenario.before
        = (Raise (KeyError "time"), s')
        ∧ accs s' = [[Scenario.survey_row]] ++ [concat [Scenario.cat1_rows]]
        ∧ queries_of (trace s')
          = [] ++ zip_with (sent Scenario.upload_table) ["CAT1"] [5%float]
               ++ [sent Scenario.upload_table "CAT2" 1%float].
Proof.
  apply (result_without_column_raises Faults.careless_registry 0 Scenario.before
           Scenario.source_table Scenario.upload_table Faults.careless []
           ["CAT1"] ["CAT1"] "CAT2" [5%float] [5%float] 1%float
           [Scenario.cat1_hits] Faults.timeless_hits [Scenario.cat1_rows] "time").
  - reflexivity.
  - reflexivity.
  - reflexivity.
  - repeat constructor.
  - repeat constructor.
  - reflexivity.
  - reflexivity.
Defined.

(** X7: splitting the work over two calls gives the same rows.  When the
    catalogs of two lists are all answered and framed, the call on the two
    lists put end to end returns the rows of the call on the first list
    followed by the rows of the call on the second one. *)
Theorem fetch_splits_over_lists (env : Registry) (src : loc) (s : state)
    (t u : Table) (svc : TapService) (others : list TapService)
    (cs1 cs2 : list string) (rs1 rs2 : list float)
    (ts1 ts2 : list Table) (bs1 bs2 : list (list LCRow)) :
  tables s !! src = Some t → upload_table_of t = Ok u →
  regsearch env "tap" ["heasarc"] = Ok (svc :: others) →
  Forall3 (answered svc u) cs1 rs1 ts1 → Forall3 framed cs1 ts1 bs1 →
  Forall3 (answered svc u) cs2 rs2 ts2 → Forall3 framed cs2 ts2 bs2 →
  ∃ l s1 s2 s12 rows1 rows2,
    HEASARC_get_lightcurves env src cs1 rs1 s = (Ok l, s1)
    ∧ HEASARC_get_lightcurves env src cs2 rs2 s = (Ok l, s2)
    ∧ HEASARC_get_lightcurves env src (cs1 ++ cs2) (rs1 ++ rs2) s = (Ok l, s12)
    ∧ accs s1 !! l = Some rows1 ∧ accs s2 !! l = Some rows2
    ∧ accs s12 !! l = Some (rows1 ++ rows2).
Proof.
  intros Ht Hu Hreg Hans1 Hfr1 Hans2 Hfr2.
  exists (length (accs s)). eexists _, _, _, (concat bs1), (concat bs2). split_and!.
  - by eapply fetch_ok.
  - by eapply fetch_ok.
  - eapply (fetch_ok env src s t u svc others Ht Hu Hreg
              (cs1 ++ cs2) (rs1 ++ rs2) (rs1 ++ rs2) (ts1 ++ ts2) (bs1 ++ bs2)).
    + by apply Forall3_app.
    + by apply Forall3_app.
    + done.
  - apply store_lookup_new.
  - apply store_lookup_new.
  - cbn [after_catalogs accs]. rewrite concat_app. apply store_lookup_new.
Qed.

Lemma fetch_splits_over_lists_witness :
  ∃ l s1 s2 s12 rows1 rows2,
    HEASARC_get_lightcurves Scenario.registry 0 ["CAT1"] [5%float] Scenario.before
    = (Ok l, s1)
    ∧ HEASARC_get_lightcurves Scenario.registry 0 ["CAT0"; "CAT1"]
        [1%float; 2%float] Scenario.before = (Ok l, s2)
    ∧ HEASARC_get_lightcurves Scenario.registry 0 (["CAT1"] ++ ["CAT0"; "CAT1"])
        ([5%float] ++ [1%float; 2%float]) Scenario.before = (Ok l, s12)
    ∧ accs s1 !! l = Some rows1 ∧ accs s2 !! l = Some rows2
    ∧ accs s12 !! l = Some (rows1 ++ rows2).
Proof.
  apply (fetch_splits_over_lists Scenario.registry 0 Scenario.before
           Scenario.source_table Scenario.upload_table Scenario.heasarc []
           ["CAT1"] ["CAT0"; "CAT1"] [5%float] [1%float; 2%float]
           [Scenario.cat1_hits] [Scenario.no_hits; Scenario.cat1_hits]
           [Scenario.cat1_rows] [[]; Scenario.cat1_rows]).
  - reflexivity.
  - reflexivity.
  - reflexivity.
  - repeat constructor.
  - repeat constructor.
  - repeat constructor.
  - repeat constructor.
Defined.

(** ** What is printed *)

Lemma length_prints_of_app (xs ys : list event) :
  length_prints_of (xs ++ ys) = length_prints_of xs ++ length_prints_of ys.
Proof. apply omap_app. Qed.

Lemma length_prints_of_loop_events {P : string → float → Table → Prop} (u : Table)
    (cs : list string) (rs : list float) (ts : list Table) :
  Forall3 P cs rs ts →
  length_prints_of (loop_events u cs rs ts) = zip cs (table_len <$> ts).
Proof. induction 1; [done|]. cbn. by f_equal. Qed.

Lemma framed_sizes (cs : list string) (ts : list Table) (bs : list (list LCRow)) :
  Forall3 framed cs ts bs →
  table_len <$> ts = length <$> bs
  ∧ length (concat bs) = sum_list_with table_len ts.
Proof.
  induction 1 as [|c t b cs ts bs Hb _ [IH1 IH2]]; [done|].
  destruct (df_heasarc_rows c t b Hb) as [Hlen _].
  cbn. rewrite length_app, IH1, IH2, Hlen. done.
Qed.

(** X8: in a call in which every catalog is answered and framed, the
    length printed for a catalog is the number of rows appended for it,
    catalog by catalog in the order of the list, and the accumulator
    returned holds as many rows as the result tables have together. *)
Theorem printed_lengths_are_frame_sizes (env : Registry) (src : loc) (s : state)
    (t u : Table) (svc : TapService) (others : list TapService)
    (cats : list string) (radii : list float)
    (ts : list Table) (bs : list (list LCRow)) :
  tables s !! src = Some t → upload_table_of t = Ok u →
  regsearch env "tap" ["heasarc"] = Ok (svc :: others) →
  Forall3 (answered svc u) cats radii ts → Forall3 framed cats ts bs →
  ∃ s', HEASARC_get_lightcurves env src cats radii s = (Ok (length (accs s)), s')
        ∧ length_prints_of (trace s')
          = length_prints_of (trace s) ++ zip cats (length <$> bs)
        ∧ accs s' !! length (accs s) = Some (concat bs)
        ∧ length (concat bs) = sum_list_with table_len ts.
Proof.
  intros Ht Hu Hreg Hans Hfr.
  destruct (framed_sizes cats ts bs Hfr) as [Hsizes Htotal].
  eexists. split_and!.
  - by eapply fetch_ok.
  - cbn [after_catalogs trace]. rewrite length_prints_of_app. f_equal.
    rewrite <- Hsizes. exact (length_prints_of_loop_events u _ _ _ Hans).
  - apply store_lookup_new.
  - done.
Qed.

Lemma printed_lengths_are_frame_sizes_witness :
  ∃ s', HEASARC_get_lightcurves Scenario.registry 0 ["CAT1"; "CAT0"]
          [5%float; 1%float] Scenario.before = (Ok 1, s')
        ∧ length_prints_of (trace s')
          = [] ++ zip ["CAT1"; "CAT0"] (length <$> [Scenario.cat1_rows; []])
        ∧ accs s' !! 1 = Some (concat [Scenario.cat1_rows; []])
        ∧ length (concat [Scenario.cat1_rows; []])
          = sum_list_with table_len [Scenario.cat1_hits; Scenario.no_hits].
Proof.
  apply (printed_lengths_are_frame_sizes Scenario.registry 0 Scenario.before
           Scenario.source_table Scenario.upload_table Scenario.heasarc []
           ["CAT1"; "CAT0"] [5%float; 1%float]
           [Scenario.cat1_hits; Scenario.no_hits] [Scenario.cat1_rows; []]).
  - reflexivity.
  - reflexivity.
  - reflexivity.
  - repeat constructor.
  - repeat constructor.
Defined.

(** ** The shape of a trace *)

(** The loop, however it ends, leaves only prints and queries in the
    trace. *)
Lemma loop_leaves_loop_events (svc : TapService) (up a : loc)
    (cats : list string) (radii : list float) (u : Table)
    (ms : list nat) (s : state) (d : list LCRow) :
  tables s !! up = Some u → accs s !! a = Some d →
  ∃ o d' evs,
    for_each ms (lightcurve_step svc up a cats radii) s
    = (o, mkState (tables s) (<[a := d']> (accs s)) (trace s ++ evs))
    ∧ Forall loop_event evs.
Proof.
  revert s d. induction ms as [|m ms IH]; intros s d Hu Hd.
  - exists (Ok ()), d, []. simpl. rewrite app_nil_r.
    rewrite list_insert_id by done. by destruct s.
  - simpl. rewrite run_bind, (lightcurve_step_run svc up a cats radii u m s d Hu Hd).
    assert (Hid : <[a := d]> (accs s) = accs s) by (by apply list_insert_id).
    destruct (cats !! m) as [c|].
    2: { exists (Raise IndexError), d, []. rewrite Hid, app_nil_r. by destruct s. }
    destruct (radii !! m) as [r|].
    2: { eexists (Raise IndexError), d, _. rewrite Hid. split; [done|].
         by repeat constructor. }
    destruct (run_sync svc _ _) as [t|e].
    2: { eexists (Raise e), d, _. rewrite Hid. split; [done|]. by repeat constructor. }
    destruct (df_heasarc c t) as [b|e].
    2: { eexists (Raise e), d, _. rewrite Hid. split; [done|]. by repeat constructor. }
    set (s1 := mkState _ _ _).
    destruct (IH s1 (d ++ b)) as (o & d' & evs & Hrun & Hevs).
    { done. }
    { simpl. apply list_lookup_insert_eq. by eapply lookup_lt_Some. }
    exists o, d', (step_events u c r t ++ evs).
    rewrite Hrun. subst s1. cbn [tables accs trace].
    rewrite list_insert_insert_eq, <- !app_assoc. split; [done|].
    apply Forall_app. split; [by repeat constructor | done].
Qed.

(** X9: whatever the inputs and however the call ends, what it adds to
    the trace is either nothing or one registry search for TAP services
    with the keyword heasarc followed by prints and queries only.  So no
    query is sent before the registry has been searched, the registry is
    searched at most once per call, and the call never draws a histogram. *)
Theorem fetch_trace_shape (env : Registry) (src : loc) (cats : list string)
    (radii : list float) (s : state) :
  ∃ evs,
    trace (HEASARC_get_lightcurves env src cats radii s).2 = trace s ++ evs
    ∧ (evs = []
       ∨ ∃ rest, evs = EvRegsearch "tap" ["heasarc"] :: rest ∧ Forall loop_event rest).
Proof.
  unfold HEASARC_get_lightcurves.
  destruct (prepare_upload_run src s) as (o1 & tbl & Hrun & _ & Hok & _).
  rewrite run_bind, Hrun.
  destruct o1 as [up|e].
  2: { exists []. cbn [snd trace]. rewrite app_nil_r. by split; [|left]. }
  destruct (Hok up eq_refl) as (-> & t & u & Ht & Hu & ->). clear Hok Hrun.
  rewrite run_bind. unfold MultiIndexDFObject at 1. cbn [tables accs trace].
  rewrite run_bind. unfold pyvo_regsearch at 1. rewrite run_bind.
  unfold emit at 1, lift at 1. cbn [tables accs trace].
  destruct (regsearch env "tap" ["heasarc"]) as [found|e].
  2: { eexists. split; [done|]. right. by exists []. }
  rewrite run_bind.
  destruct found as [|svc others].
  { eexists. split; [done|]. right. by exists []. }
  rewrite list_getitem_head, run_bind.
  set (s2 := mkState _ _ _).
  destruct (loop_leaves_loop_events svc (length (tables s)) (length (accs s))
              cats radii u (seq 0 (length cats)) s2 [])
    as (o & d' & evs & Hloop & Hevs).
  { apply store_lookup_new. }
  { apply store_lookup_new. }
  rewrite Hloop. subst s2. cbn [tables accs trace].
  exists (EvRegsearch "tap" ["heasarc"] :: evs). split.
  - destruct o as [[]|e]; cbn [snd trace]; by rewrite <- app_assoc.
  - right. by exists evs.
Qed.

(** ** The inspector, in every run *)


(** X11: when the sample query raises, [make_hist_error_radii] raises the
    same exception; the registry search and the query are all that has
    happened, and no histogram has been drawn. *)
Theorem make_hist_query_raises (env : Registry) (plt : Pyplot)
    (missioncat : string) (s : state)
    (svc : TapService) (others : list TapService) (e : exn) :
  regsearch env "tap" ["heasarc"] = Ok (svc :: others) →
  run_sync svc (heasarcquery missioncat) [] = Raise e →
  make_hist_error_radii env plt missioncat s
  = (Raise e, mkState (tables s) (accs s)
                (trace s ++ [EvRegsearch "tap" ["heasarc"];
                             EvRunSync (heasarcquery missioncat) []])).
Proof.
  intros Hreg Hrun. unfold make_hist_error_radii.
  rewrite run_bind. unfold pyvo_regsearch at 1. rewrite run_bind.
  unfold emit at 1, lift at 1. cbn [tables accs trace]. rewrite Hreg.
  rewrite run_bind, list_getitem_head.
  rewrite run_bind. unfold tap_run_sync at 1. rewrite run_bind.
  unfold emit at 1, lift at 1. cbn [tables accs trace]. rewrite Hrun.
  by rewrite <- app_assoc.
Qed.

Lemma make_hist_query_raises_witness :
  make_hist_error_radii Faults.careless_registry Scenario.pyplot "NONE" Scenario.before
  = (Raise (RemoteFailure "unknown table"),
     mkState [Scenario.source_table] [[Scenario.survey_row]]
       ([] ++ [EvRegsearch "tap" ["heasarc"]; EvRunSync (heasarcquery "NONE") []])).
Proof.
  apply (make_hist_query_raises Faults.careless_registry Scenario.pyplot "NONE"
           Scenario.before Faults.careless []); reflexivity.
Defined.

(** X12: when the table answered to the sample query has no column
    [error_radius], [make_hist_error_radii] raises [KeyError] for that name
    after the query: the table is not returned and nothing is drawn. *)
Theorem make_hist_without_radius_column (env : Registry) (plt : Pyplot)
    (missioncat : string)
    (s : state) (svc : TapService) (others : list TapService) (t : Table) :
  regsearch env "tap" ["heasarc"] = Ok (svc :: others) →
  run_sync svc (heasarcquery missioncat) [] = Ok t →
  has_column t "error_radius" = false →
  make_hist_error_radii env plt missioncat s
  = (Raise (KeyError "error_radius"),
     mkState (tables s) (accs s)
       (trace s ++ [EvRegsearch "tap" ["heasarc"];
                    EvRunSync (heasarcquery missioncat) []])).
Proof.
  intros Hreg Hrun Hcol. unfold make_hist_error_radii.
  rewrite run_bind. unfold pyvo_regsearch at 1. rewrite run_bind.
  unfold emit at 1, lift at 1. cbn [tables accs trace]. rewrite Hreg.
  rewrite run_bind, list_getitem_head.
  rewrite run_bind. unfold tap_run_sync at 1. rewrite run_bind.
  unfold emit at 1, lift at 1. cbn [tables accs trace]. rewrite Hrun.
  rewrite run_bind. unfold lift at 1. rewrite (column_of_missing _ _ Hcol).
  by rewrite <- app_assoc.
Qed.

Lemma make_hist_without_radius_column_witness :
  make_hist_error_radii Faults.careless_registry Scenario.pyplot "CAT1" Scenario.before
  = (Raise (KeyError "error_radius"),
     mkState [Scenario.source_table] [[Scenario.survey_row]]
       ([] ++ [EvRegsearch "tap" ["heasarc"]; EvRunSync (heasarcquery "CAT1") []])).
Proof.
  apply (make_hist_without_radius_column Faults.careless_registry Scenario.pyplot
           "CAT1" Scenario.before Faults.careless [] Faults.bare_sample); reflexivity.
Defined.

(** ** The queries of any run *)

(** The loop over the indices from [k] on, however it ends, sends the
    queries of the catalogs from [k] on, each with the cutoff of its index,
    in order and without a gap, and stops somewhere. *)
Lemma loop_queries_in_order (svc : TapService) (up a : loc)
    (cats : list string) (radii : list float) (u : Table) (n : nat) :
  ∀ (k : nat) (s : state) (d : list LCRow),
    tables s !! up = Some u → accs s !! a = Some d →
    ∃ o d' evs,
      for_each (seq k n) (lightcurve_step svc up a cats radii) s
      = (o, mkState (tables s) (<[a := d']> (accs s)) (trace s ++ evs))
      ∧ queries_of evs `prefix_of` zip_with (sent u) (drop k cats) (drop k radii).
Proof.
  induction n as [|n IH]; intros k s d Hu Hd.
  - exists (Ok ()), d, []. simpl. rewrite app_nil_r.
    rewrite list_insert_id by done. split; [by destruct s | apply prefix_nil].
  - cbn [seq for_each].
    rewrite run_bind, (lightcurve_step_run svc up a cats radii u k s d Hu Hd).
    assert (Hid : <[a := d]> (accs s) = accs s) by (by apply list_insert_id).
    destruct (cats !! k) as [c|] eqn:Hc.
    2: { exists (Raise IndexError), d, []. rewrite Hid, app_nil_r.
         split; [by destruct s | apply prefix_nil]. }
    destruct (radii !! k) as [r|] eqn:Hr.
    2: { eexists (Raise IndexError), d, _. rewrite Hid.
         split; [done | apply prefix_nil]. }
    rewrite (drop_S _ _ _ Hc), (drop_S _ _ _ Hr). cbn [zip_with].
    destruct (run_sync svc _ _) as [t|e].
    2: { eexists (Raise e), d, _. rewrite Hid. split; [done|].
         apply prefix_cons, prefix_nil. }
    destruct (df_heasarc c t) as [b|e].
    2: { eexists (Raise e), d, _. rewrite Hid. split; [done|].
         apply prefix_cons, prefix_nil. }
    set (s1 := mkState _ _ _).
    destruct (IH (S k) s1 (d ++ b)) as (o & d' & evs & Hrun & Hevs).
    { done. }
    { simpl. apply list_lookup_insert_eq. by eapply lookup_lt_Some. }
    exists o, d', (step_events u c r t ++ evs).
    rewrite Hrun. subst s1. cbn [tables accs trace].
    rewrite list_insert_insert_eq, <- !app_assoc. split; [done|].
    rewrite queries_of_app. by apply prefix_cons.
Qed.

(** X13: whatever the inputs and however the call ends, the queries it
    has sent are, in order, the queries of the first catalogs of the list,
    each with the cutoff of the same index and with the projection of the
    source table: no catalog is skipped, none is queried twice, and none is
    queried out of turn. *)
Theorem queries_follow_the_lists (env : Registry) (src : loc) (cats : list string)
    (radii : list float) (s : state) :
  ∃ evs,
    trace (HEASARC_get_lightcurves env src cats radii s).2 = trace s ++ evs
    ∧ (queries_of evs = []
       ∨ ∃ t u, tables s !! src = Some t ∧ upload_table_of t = Ok u
                ∧ queries_of evs `prefix_of` zip_with (sent u) cats radii).
Proof.
  unfold HEASARC_get_lightcurves.
  destruct (prepare_upload_run src s) as (o1 & tbl & Hrun & _ & Hok & _).
  rewrite run_bind, Hrun.
  destruct o1 as [up|e].
  2: { exists []. cbn [snd trace]. rewrite app_nil_r. by split; [|left]. }
  destruct (Hok up eq_refl) as (-> & t & u & Ht & Hu & ->). clear Hok Hrun.
  rewrite run_bind. unfold MultiIndexDFObject at 1. cbn [tables accs trace].
  rewrite run_bind. unfold pyvo_regsearch at 1. rewrite run_bind.
  unfold emit at 1, lift at 1. cbn [tables accs trace].
  destruct (regsearch env "tap" ["heasarc"]) as [found|e].
  2: { eexists. split; [done|]. by left. }
  rewrite run_bind.
  destruct found as [|svc others].
  { eexists. split; [done|]. by left. }
  rewrite list_getitem_head, run_bind.
  set (s2 := mkState _ _ _).
  destruct (loop_queries_in_order svc (length (tables s)) (length (accs s))
              cats radii u (length cats) 0 s2 [])
    as (o & d' & evs & Hloop & Hevs).
  { apply store_lookup_new. }
  { apply store_lookup_new. }
  rewrite Hloop. subst s2. cbn [tables accs trace].
  exists (EvRegsearch "tap" ["heasarc"] :: evs). split.
  - destruct o as [[]|e]; cbn [snd trace]; by rewrite <- app_assoc.
  - right. by exists t, u.
Qed.

(** X14: a second call with the same arguments, after a first call in
    which every catalog was answered and framed, returns a second
    accumulator with the same rows; the accumulator of the first call is
    still there with its rows, and the source table has not changed. *)
Theorem second_call_second_accumulator (env : Registry) (src : loc) (s : state)
    (t u : Table) (svc : TapService) (others : list TapService)
    (cats : list string) (radii : list float)
    (ts : list Table) (bs : list (list LCRow)) :
  tables s !! src = Some t → upload_table_of t = Ok u →
  regsearch env "tap" ["heasarc"] = Ok (svc :: others) →
  Forall3 (answered svc u) cats radii ts → Forall3 framed cats ts bs →
  ∃ s1 s2,
    HEASARC_get_lightcurves env src cats radii s = (Ok (length (accs s)), s1)
    ∧ HEASARC_get_lightcurves env src cats radii s1 = (Ok (S (length (accs s))), s2)
    ∧ accs s2 !! length (accs s) = Some (concat bs)
    ∧ accs s2 !! S (length (accs s)) = Some (concat bs)
    ∧ tables s2 !! src = Some t.
Proof.
  intros Ht Hu Hreg Hans Hfr.
  exists (after_catalogs s u cats radii ts bs). eexists. split_and!.
  - by eapply fetch_ok.
  - erewrite (fetch_ok env src (after_catalogs s u cats radii ts bs) t u svc others);
      [| by apply lookup_app_l_Some | done.. ].
    cbn [after_catalogs accs]. rewrite length_app. cbn [length].
    by rewrite Nat.add_1_r.
  - cbn [after_catalogs accs]. apply lookup_app_l_Some, store_lookup_new.
  - cbn [after_catalogs accs].
    replace (S (length (accs s))) with (length (accs s ++ [concat bs]))
      by (rewrite length_app; simpl; lia).
    apply store_lookup_new.
  - cbn [after_catalogs tables]. by do 2 apply lookup_app_l_Some.
Qed.

Lemma second_call_second_accumulator_witness :
  ∃ s1 s2,
    HEASARC_get_lightcurves Scenario.registry 0 ["CAT1"] [5%float] Scenario.before
    = (Ok 1, s1)
    ∧ HEASARC_get_lightcurves Scenario.registry 0 ["CAT1"] [5%float] s1 = (Ok 2, s2)
    ∧ accs s2 !! 1 = Some (concat [Scenario.cat1_rows])
    ∧ accs s2 !! 2 = Some (concat [Scenario.cat1_rows])
    ∧ tables s2 !! 0 = Some Scenario.source_table.
Proof.
  apply (second_call_second_accumulator Scenario.registry 0 Scenario.before
           Scenario.source_table Scenario.upload_table Scenario.heasarc []
           ["CAT1"] [5%float] [Scenario.cat1_hits] [Scenario.cat1_rows]).
  - reflexivity.
  - reflexivity.
  - reflexivity.
  - repeat constructor.
  - repeat constructor.
Defined.
